(** * Clipping of segments and polygons (src/main.py)

    A shallow embedding of the two algorithmic cores of the program:
    [cohen_sutherland_clip] (a segment against an axis-aligned window) and
    [sutherland_hodgman_clip_polygon] (a polygon against a convex polygon).

    The Python code computes on [float] coordinates.  The algorithms are
    written once here, over an interface [Num] of the arithmetic and the
    comparisons they use, and run at two instances:
    - [Q_Num], exact rational arithmetic: the "real-valued coordinates" of the
      specification's data model, on which the geometric theorems are proved;
    - [float_Num], the kernel's binary64 numbers, the arithmetic Python
      performs, on which the concrete scenarios are evaluated as well.

    Python's exceptions are explicit: a division raises [ZeroDivisionError]
    on a zero divisor, a list index out of range raises [IndexError], and a
    local read before its first assignment raises [UnboundLocalError].  The
    [while True] loop runs on fuel; [OutOfFuel] is the loop still running.

    Beside the two clippers the file models the readers [read_polygon] and
    [read_segments_rect], from the list of tokens on, and the loop of the
    handler [run_segments_clip]; plotting and the window are left out. *)

From Corelib Require Import PrimFloat.
From Stdlib Require Import ZArith QArith Lqa Lia List Bool PeanoNat.
From Stdlib Require String Ascii.
Import ListNotations.
Import String.StringSyntax.
Delimit Scope string_scope with string.

Set Implicit Arguments.

(** ** Outcomes of a Python computation *)

Inductive exn : Type :=
| ZeroDivisionError
| IndexError
| UnboundLocalError.

Inductive outcome (A : Type) : Type :=
| Returns (a : A)
| Raises (e : exn)
| OutOfFuel.

Arguments Returns {A} a.
Arguments Raises {A} e.
Arguments OutOfFuel {A}.

Definition bind {A B : Type} (m : outcome A) (k : A -> outcome B) : outcome B :=
  match m with
  | Returns a => k a
  | Raises e => Raises e
  | OutOfFuel => OutOfFuel
  end.

Declare Scope py_scope.
Delimit Scope py_scope with py.
Notation "x <- m ;; k" := (bind m (fun x => k))
  (at level 61, m at next level, right associativity) : py_scope.
Local Open Scope py_scope.

(** ** The numbers of the program *)

Class Num (F : Type) : Type := {
  zero : F;
  add : F -> F -> F;
  sub : F -> F -> F;
  mul : F -> F -> F;
  (** the quotient, where the divisor is not zero *)
  quot : F -> F -> F;
  (** [ltb a b] is Python's [a < b], [leb a b] is [a <= b], [eqb] is [==] *)
  ltb : F -> F -> bool;
  leb : F -> F -> bool;
  eqb : F -> F -> bool
}.

(** Python's [a / b]. *)
Definition div {F} {N : Num F} (a b : F) : outcome F :=
  if eqb b zero then Raises ZeroDivisionError else Returns (quot a b).

Definition Qltb (a b : Q) : bool := negb (Qle_bool b a).

#[export] Instance Q_Num : Num Q := {
  zero := 0%Q;
  add := Qplus;
  sub := Qminus;
  mul := Qmult;
  quot := Qdiv;
  ltb := Qltb;
  leb := Qle_bool;
  eqb := Qeq_bool
}.

#[export] Instance float_Num : Num PrimFloat.float := {
  zero := PrimFloat.zero;
  add := PrimFloat.add;
  sub := PrimFloat.sub;
  mul := PrimFloat.mul;
  quot := PrimFloat.div;
  ltb := PrimFloat.ltb;
  leb := PrimFloat.leb;
  eqb := PrimFloat.eqb
}.

(** ** Geometry (the dataclasses [Point], [Segment], [Rect]) *)

Section Geometry.

Context {F : Type} {N : Num F}.

Record Point : Type := { x : F; y : F }.
Record Segment : Type := { p1 : Point; p2 : Point }.
Record Rect : Type := { xmin : F; ymin : F; xmax : F; ymax : F }.

(** ** cohen_sutherland_clip *)

Definition INSIDE : Z := 0.
Definition LEFT : Z := 1.
Definition RIGHT : Z := 2.
Definition BOTTOM : Z := 4.
Definition TOP : Z := 8.

(** Python's truth value of an [int]. *)
Definition truthy (n : Z) : bool := negb (n =? 0)%Z.

Definition outcode (rect : Rect) (p : Point) : Z :=
  let code := INSIDE in
  let code :=
    if ltb (x p) (xmin rect) then Z.lor code LEFT
    else if ltb (xmax rect) (x p) then Z.lor code RIGHT
    else code in
  let code :=
    if ltb (y p) (ymin rect) then Z.lor code BOTTOM
    else if ltb (ymax rect) (y p) then Z.lor code TOP
    else code in
  code.

(** The locals of [cohen_sutherland_clip] that live across the iterations of
    its loop.  [x] and [y] are unbound until an interpolation branch assigns
    them. *)
Record locals : Type := {
  l_p1 : Point;
  l_p2 : Point;
  l_c1 : Z;
  l_c2 : Z;
  l_x : option F;
  l_y : option F
}.

(** What one pass through the loop body does: it returns from the function,
    or goes round again with new locals. *)
Inductive pass : Type :=
| Return (r : option Segment)
| Continue (l : locals).

(** [a + (b - a) * (m - c) / (d - c)], as lines 54, 57, 60 and 63 compute it. *)
Definition interpolate (a b m c d : F) : outcome F :=
  q <- div (mul (sub b a) (sub m c)) (sub d c) ;;
  Returns (add a q).

Definition loop_body (rect : Rect) (l : locals) : outcome pass :=
  let P1 := l_p1 l in
  let P2 := l_p2 l in
  let c1 := l_c1 l in
  let c2 := l_c2 l in
  if ((c1 =? 0)%Z && (c2 =? 0)%Z)%bool then
    Returns (Return (Some {| p1 := P1; p2 := P2 |}))
  else if truthy (Z.land c1 c2) then
    Returns (Return None)
  else
    let out := if truthy c1 then c1 else c2 in
    xy <- (if truthy (Z.land out TOP) then
             x' <- interpolate (x P1) (x P2) (ymax rect) (y P1) (y P2) ;;
             Returns (Some x', Some (ymax rect))
           else if truthy (Z.land out BOTTOM) then
             x' <- interpolate (x P1) (x P2) (ymin rect) (y P1) (y P2) ;;
             Returns (Some x', Some (ymin rect))
           else if truthy (Z.land out RIGHT) then
             y' <- interpolate (y P1) (y P2) (xmax rect) (x P1) (x P2) ;;
             Returns (Some (xmax rect), Some y')
           else if truthy (Z.land out LEFT) then
             y' <- interpolate (y P1) (y P2) (xmin rect) (x P1) (x P2) ;;
             Returns (Some (xmin rect), Some y')
           else
             Returns (l_x l, l_y l)) ;;
    match xy with
    | (Some x', Some y') =>
        let p := {| x := x'; y := y' |} in
        if (out =? c1)%Z then
          Returns (Continue {| l_p1 := p; l_p2 := P2;
                               l_c1 := outcode rect p; l_c2 := c2;
                               l_x := Some x'; l_y := Some y' |})
        else
          Returns (Continue {| l_p1 := P1; l_p2 := p;
                               l_c1 := c1; l_c2 := outcode rect p;
                               l_x := Some x'; l_y := Some y' |})
    | _ => Raises UnboundLocalError
    end.

Fixpoint while_true (fuel : nat) (rect : Rect) (l : locals)
  : outcome (option Segment) :=
  match fuel with
  | O => OutOfFuel
  | S fuel' =>
      r <- loop_body rect l ;;
      match r with
      | Return v => Returns v
      | Continue l' => while_true fuel' rect l'
      end
  end.

(** The divisor of the interpolation that the next pass through the loop
    body performs (lines 54, 57, 60, 63), when it reaches one. *)
Definition denominator (rect : Rect) (l : locals) : option F :=
  let P1 := l_p1 l in
  let P2 := l_p2 l in
  let c1 := l_c1 l in
  let c2 := l_c2 l in
  if ((c1 =? 0)%Z && (c2 =? 0)%Z)%bool then None
  else if truthy (Z.land c1 c2) then None
  else
    let out := if truthy c1 then c1 else c2 in
    if truthy (Z.land out TOP) then Some (sub (y P2) (y P1))
    else if truthy (Z.land out BOTTOM) then Some (sub (y P2) (y P1))
    else if truthy (Z.land out RIGHT) then Some (sub (x P2) (x P1))
    else if truthy (Z.land out LEFT) then Some (sub (x P2) (x P1))
    else None.

(** The locals the loop can hold at the top of a pass, from given ones. *)
Inductive reaches (rect : Rect) (l : locals) : locals -> Prop :=
| reaches_start : reaches rect l l
| reaches_pass (l' l'' : locals) :
    reaches rect l l' ->
    loop_body rect l' = Returns (Continue l'') ->
    reaches rect l l''.

Definition entry (seg : Segment) (rect : Rect) : locals :=
  let P1 := {| x := x (p1 seg); y := y (p1 seg) |} in
  let P2 := {| x := x (p2 seg); y := y (p2 seg) |} in
  {| l_p1 := P1; l_p2 := P2;
     l_c1 := outcode rect P1; l_c2 := outcode rect P2;
     l_x := None; l_y := None |}.

Definition cohen_sutherland_clip (fuel : nat) (seg : Segment) (rect : Rect)
  : outcome (option Segment) :=
  while_true fuel rect (entry seg rect).

(** Which endpoint each clipping pass of the loop replaces, in order: the
    record of a run that the bound on the iterations is stated on. *)
Inductive endpoint : Type := First | Second.


Fixpoint clipped (fuel : nat) (rect : Rect) (l : locals) : list endpoint :=
  match fuel with
  | O => []
  | S fuel' =>
      match loop_body rect l with
      | Returns (Continue l') =>
          let out := if truthy (l_c1 l) then l_c1 l else l_c2 l in
          (if (out =? l_c1 l)%Z then First else Second)
            :: clipped fuel' rect l'
      | _ => []
      end
  end.


(** ** sutherland_hodgman_clip_polygon *)

Definition inside (p a b : Point) : bool :=
  leb zero (sub (mul (sub (x b) (x a)) (sub (y p) (y a)))
                (mul (sub (y b) (y a)) (sub (x p) (x a)))).

Definition intersection (P1 P2 a b : Point) : outcome Point :=
  let A1 := sub (y P2) (y P1) in
  let B1 := sub (x P1) (x P2) in
  let C1 := add (mul A1 (x P1)) (mul B1 (y P1)) in
  let A2 := sub (y b) (y a) in
  let B2 := sub (x a) (x b) in
  let C2 := add (mul A2 (x a)) (mul B2 (y a)) in
  let det := sub (mul A1 B2) (mul A2 B1) in
  if eqb det zero then Returns P2
  else
    x' <- div (sub (mul B2 C1) (mul B1 C2)) det ;;
    y' <- div (sub (mul A1 C2) (mul A2 C1)) det ;;
    Returns {| x := x'; y := y' |}.

(** [l[i]] for an index that is not negative. *)
Definition getitem (l : list Point) (i : nat) : outcome Point :=
  match nth_error l i with
  | Some p => Returns p
  | None => Raises IndexError
  end.

(** [a % b] on indices. *)
Definition pymod (a b : nat) : outcome nat :=
  match b with
  | O => Raises ZeroDivisionError
  | _ => Returns (a mod b)
  end.

(** [for i in range(n)], threading the variables the body assigns. *)
Fixpoint for_range {V : Type} (body : nat -> V -> outcome V)
  (start n : nat) (v : V) : outcome V :=
  match n with
  | O => Returns v
  | S n' =>
      v' <- body start v ;;
      for_range body (S start) n' v'
  end.

(** The body of the inner loop (lines 94-101). *)
Definition walk_body (input_list : list Point) (A B : Point)
  (j : nat) (output : list Point) : outcome (list Point) :=
  P <- getitem input_list j ;;
  k <- pymod (j + 1) (length input_list) ;;
  Q <- getitem input_list k ;;
  if inside Q A B then
    output <- (if negb (inside P A B) then
                 I <- intersection P Q A B ;;
                 Returns (output ++ [I])
               else Returns output) ;;
    Returns (output ++ [Q])
  else if inside P A B then
    I <- intersection P Q A B ;;
    Returns (output ++ [I])
  else Returns output.

(** The body of the outer loop (lines 90-101). *)
Definition edge_body (clipper : list Point)
  (i : nat) (output : list Point) : outcome (list Point) :=
  let input_list := output in
  let output := [] in
  A <- getitem clipper i ;;
  k <- pymod (i + 1) (length clipper) ;;
  B <- getitem clipper k ;;
  for_range (walk_body input_list A B) 0 (length input_list) output.

Definition sutherland_hodgman_clip_polygon (poly clipper : list Point)
  : outcome (list Point) :=
  let output := poly in
  for_range (edge_body clipper) 0 (length clipper) output.

End Geometry.

Arguments Point F : clear implicits.
Arguments Segment F : clear implicits.
Arguments Rect F : clear implicits.
Arguments locals F : clear implicits.
Arguments pass F : clear implicits.

(** ** The concrete numbers of the scenarios *)

Definition pt (a b : Q) : Point Q := {| x := a; y := b |}.

Definition fpt (a b : float) : Point float := {| x := a; y := b |}.

(** ** Geometry of the exact model, as the specification words it *)

Local Open Scope Q_scope.

(** A rectangle is valid when [xmin <= xmax] and [ymin <= ymax]. *)
Definition valid_rect (rect : Rect Q) : Prop :=
  xmin rect <= xmax rect /\ ymin rect <= ymax rect.

(** The closed rectangle. *)
Definition in_rect (rect : Rect Q) (q : Point Q) : Prop :=
  (xmin rect <= x q /\ x q <= xmax rect) /\
  (ymin rect <= y q /\ y q <= ymax rect).

(** [q] lies on the closed segment from [a] to [b]. *)
Definition between (a b q : Point Q) : Prop :=
  exists u : Q, (0 <= u /\ u <= 1) /\
    x q == x a + u * (x b - x a) /\
    y q == y a + u * (y b - y a).

Definition on_segment (seg : Segment Q) (q : Point Q) : Prop :=
  between (p1 seg) (p2 seg) q.

(** Equality of points and of polygons up to the representation of a
    rational ([1#2] and [2#4] are one coordinate). *)
Definition point_eqb (p q : Point Q) : bool :=
  (Qeq_bool (x p) (x q) && Qeq_bool (y p) (y q))%bool.

Fixpoint polygon_eqb (l m : list (Point Q)) : bool :=
  match l, m with
  | [], [] => true
  | p :: l', q :: m' => (point_eqb p q && polygon_eqb l' m')%bool
  | _, _ => false
  end.

(** Python's [==] on float points and polygons ([-0.0 == 0.0]). *)
Definition fpoint_eqb (p q : Point float) : bool :=
  (PrimFloat.eqb (x p) (x q) && PrimFloat.eqb (y p) (y q))%bool.

Fixpoint fpolygon_eqb (l m : list (Point float)) : bool :=
  match l, m with
  | [], [] => true
  | p :: l', q :: m' => (fpoint_eqb p q && fpolygon_eqb l' m')%bool
  | _, _ => false
  end.

(** Twice the signed area of a closed polygon (the shoelace sum). *)
Fixpoint shoelace_from (first : Point Q) (l : list (Point Q)) : Q :=
  match l with
  | [] => 0
  | [p] => x p * y first - x first * y p
  | p :: (q :: _) as l' => (x p * y q - x q * y p) + shoelace_from first l'
  end.

Definition area (l : list (Point Q)) : Q :=
  match l with
  | [] => 0
  | first :: _ => shoelace_from first l / 2
  end.

(** A polygon without the vertices that repeat their predecessor. *)
Fixpoint distinct_vertices (l : list (Point Q)) : list (Point Q) :=
  match l with
  | [] => []
  | p :: l' =>
      match l' with
      | q :: _ => if point_eqb p q then distinct_vertices l'
                  else p :: distinct_vertices l'
      | [] => [p]
      end
  end.

(** The vertices of a polygon, started [k] places later round the loop. *)
Definition rotate (k : nat) (l : list (Point Q)) : list (Point Q) :=
  skipn k l ++ firstn k l.

(** * Vocabulary of the proofs

    Nothing below is code of the program: these are the notions the lemmas
    on the loop are stated with. *)

(** The loop keeps [c1] and [c2] the outcodes of [p1] and [p2]. *)
Definition coded {F : Type} {N : Num F} (rect : Rect F) (l : locals F)
  : Prop :=
  l_c1 l = outcode rect (l_p1 l) /\ l_c2 l = outcode rect (l_p2 l).

(** On one axis, a coordinate is below the window, within it (bounds
    included) or above it; the tests are those of [outcode], in its order. *)
Inductive zone : Type := Below | Within | Above.

Definition zone_of (lo hi v : Q) : zone :=
  if Qltb v lo then Below else if Qltb hi v then Above else Within.

Definition hzone (rect : Rect Q) (p : Point Q) : zone :=
  zone_of (xmin rect) (xmax rect) (x p).

Definition vzone (rect : Rect Q) (p : Point Q) : zone :=
  zone_of (ymin rect) (ymax rect) (y p).

(** The bits a zone contributes to the outcode. *)
Definition hcode (z : zone) : Z :=
  match z with Below => LEFT | Within => INSIDE | Above => RIGHT end.

Definition vcode (z : zone) : Z :=
  match z with Below => BOTTOM | Within => INSIDE | Above => TOP end.

(** The side of the window a pass clips against, and what a pass decides. *)
Inductive side : Type := STop | SBottom | SRight | SLeft.

Inductive decision : Type :=
| Accept
| Reject
| Clip (e : endpoint) (s : side).

(** The branch lines 53-64 take for an endpoint in zones [h], [v]. *)
Definition pick (h v : zone) : option side :=
  match v, h with
  | Above, _ => Some STop
  | Below, _ => Some SBottom
  | Within, Above => Some SRight
  | Within, Below => Some SLeft
  | Within, Within => None
  end.

(** Two endpoints out on the same side of an axis: their outcodes share the
    bit of that side, and [c1 & c2] is not 0. *)
Definition shares (a b : zone) : bool :=
  match a, b with
  | Below, Below | Above, Above => true
  | _, _ => false
  end.

(** Lines 48-52 and 65, on the zones of [p1] and of [p2]. *)
Definition decide (h1 v1 h2 v2 : zone) : decision :=
  match pick h1 v1, pick h2 v2 with
  | None, None => Accept
  | o1, o2 =>
      if (shares h1 h2 || shares v1 v2)%bool then Reject
      else match o1, o2 with
           | Some s, _ => Clip First s
           | None, Some s => Clip Second s
           | None, None => Accept
           end
  end.

Definition decision_at (rect : Rect Q) (l : locals Q) : decision :=
  decide (hzone rect (l_p1 l)) (vzone rect (l_p1 l))
         (hzone rect (l_p2 l)) (vzone rect (l_p2 l)).

(** The point lines 53-64 compute for a side. *)
Definition clip_point (s : side) (rect : Rect Q) (P1 P2 : Point Q)
  : outcome (Point Q) :=
  match s with
  | STop =>
      x' <- interpolate (x P1) (x P2) (ymax rect) (y P1) (y P2) ;;
      Returns {| x := x'; y := ymax rect |}
  | SBottom =>
      x' <- interpolate (x P1) (x P2) (ymin rect) (y P1) (y P2) ;;
      Returns {| x := x'; y := ymin rect |}
  | SRight =>
      y' <- interpolate (y P1) (y P2) (xmax rect) (x P1) (x P2) ;;
      Returns {| x := xmax rect; y := y' |}
  | SLeft =>
      y' <- interpolate (y P1) (y P2) (xmin rect) (x P1) (x P2) ;;
      Returns {| x := xmin rect; y := y' |}
  end.

(** Lines 65-68: the endpoint that was out takes the new point. *)
Definition replace (rect : Rect Q) (e : endpoint) (l : locals Q) (p : Point Q)
  : locals Q :=
  match e with
  | First => {| l_p1 := p; l_p2 := l_p2 l;
                l_c1 := outcode rect p; l_c2 := l_c2 l;
                l_x := Some (x p); l_y := Some (y p) |}
  | Second => {| l_p1 := l_p1 l; l_p2 := p;
                 l_c1 := l_c1 l; l_c2 := outcode rect p;
                 l_x := Some (x p); l_y := Some (y p) |}
  end.

(** The number of axes on which an endpoint is out of the window. *)
Definition weight (h v : zone) : nat :=
  (match h with Within => 0 | _ => 1 end) +
  (match v with Within => 0 | _ => 1 end).

(** A bound on the passes that will still replace endpoint [e]. *)
Definition remaining (e : endpoint) (h1 v1 h2 v2 : zone) : nat :=
  match decide h1 v1 h2 v2 with
  | Clip _ _ => match e with First => weight h1 v1 | Second => weight h2 v2 end
  | _ => 0%nat
  end.

Definition remaining_at (e : endpoint) (rect : Rect Q) (l : locals Q) : nat :=
  remaining e (hzone rect (l_p1 l)) (vzone rect (l_p1 l))
              (hzone rect (l_p2 l)) (vzone rect (l_p2 l)).

(** The zones a coordinate between two others can be in. *)
Definition zone_mid (a b n : zone) : bool :=
  match n with
  | Within => true
  | Below => match a, b with Below, _ | _, Below => true | _, _ => false end
  | Above => match a, b with Above, _ | _, Above => true | _, _ => false end
  end.

(** The zones [hn], [vn] the new point of a pass on side [s] can be in, when
    the endpoint it replaces is in [hE], [vE] and the other in [hO], [vO]. *)
Definition fits (s : side) (hE vE hO vO hn vn : zone) : bool :=
  match s with
  | STop | SBottom =>
      (match vn with Within => true | _ => false end && zone_mid hE hO hn)%bool
  | SRight | SLeft =>
      (match hn with Within => true | _ => false end && zone_mid vE vO vn)%bool
  end.

(** [q] is strictly outside the window's line on side [s]. *)
Definition beyond (s : side) (rect : Rect Q) (q : Point Q) : Prop :=
  match s with
  | STop => ymax rect < y q
  | SBottom => y q < ymin rect
  | SRight => xmax rect < x q
  | SLeft => x q < xmin rect
  end.

(** [n] is the point of the line from [a] to [b] at parameter [s]. *)
Definition lerp (a b : Point Q) (s : Q) (n : Point Q) : Prop :=
  x n == x a + s * (x b - x a) /\ y n == y a + s * (y b - y a).

(** The new point lies on the window's line of the clipped side. *)
Definition on_line (s : side) (rect : Rect Q) (n : Point Q) : Prop :=
  match s with
  | STop => y n = ymax rect
  | SBottom => y n = ymin rect
  | SRight => x n = xmax rect
  | SLeft => x n = xmin rect
  end.

Definition other (e : endpoint) : endpoint :=
  match e with First => Second | Second => First end.


(** ** The inputs of the scenarios and of the witnesses *)

Definition window : Rect Q :=
  {| xmin := 0; ymin := -1; xmax := 10; ymax := 1 |}.

Definition crossing : Segment Q := {| p1 := pt (-5) 0; p2 := pt 5 0 |}.

(** What the loop makes of [crossing]: the [y] of the new [p1] is the
    unreduced fraction the interpolation computes. *)
Definition crossing_clipped : Segment Q :=
  {| p1 := {| x := 0; y := 0 # 10 |}; p2 := pt 5 0 |}.

(** The same on binary64 numbers. *)
Definition fwindow : Rect float :=
  {| xmin := 0%float; ymin := (-1)%float; xmax := 10%float; ymax := 1%float |}.

Definition fcrossing : Segment float :=
  {| p1 := fpt (-5) 0; p2 := fpt 5 0 |}.

Definition square : list (Point Q) := [pt 0 0; pt 4 0; pt 4 4; pt 0 4].

Definition triangle : list (Point Q) := [pt 0 0; pt 4 0; pt 0 4].

Definition fsquare : list (Point float) := [fpt 0 0; fpt 4 0; fpt 4 4; fpt 0 4].

Definition ftriangle : list (Point float) := [fpt 0 0; fpt 4 0; fpt 0 4].

(** * Vocabulary of the further properties *)

(** A point on one of the four lines that bound the window: one coordinate
    is, as a number of the program, a bound of the rectangle. *)
Definition on_window_line {F : Type} (rect : Rect F) (p : Point F) : Prop :=
  x p = xmin rect \/ x p = xmax rect \/ y p = ymin rect \/ y p = ymax rect.

(** A polygon started one vertex later: what a pass over a clip edge that
    excludes nothing makes of it. *)
Definition rotate_one {A : Type} (l : list A) : list A :=
  match l with
  | [] => []
  | p :: rest => rest ++ [p]
  end.



(** ** read_polygon and read_segments_rect, from the tokens on

    Both readers open the file, read it whole and split it at white space
    (lines 107-108 and 120-121); what follows works on the list [parts] of
    tokens and is modelled here.  [int] and [float] are Python's own
    conversions of a token: they are parameters, [None] standing for the
    [ValueError] of a token they refuse.  The iterator [it] is the list of
    the tokens not yet taken. *)

Definition token : Type := String.string.

Inductive read_exn : Type :=
| StopIteration
| ValueError.

Inductive reading (A : Type) : Type :=
| Got (a : A)
| Failed (e : read_exn).

Arguments Got {A} a.
Arguments Failed {A} e.

Definition rbind {A B : Type} (m : reading A) (k : A -> reading B)
  : reading B :=
  match m with
  | Got a => k a
  | Failed e => Failed e
  end.

Declare Scope read_scope.
Delimit Scope read_scope with read.
Notation "x <- m ;; k" := (rbind m (fun x => k))
  (at level 61, m at next level, right associativity) : read_scope.

(** [next(it)]: the token and the iterator after it. *)
Definition next (it : list token) : reading (token * list token) :=
  match it with
  | [] => Failed StopIteration
  | t :: it' => Got (t, it')
  end.

Section Readers.

Context {F : Type}.
Variable int_of : token -> option Z.
Variable float_of : token -> option F.

Definition py_int (t : token) : reading Z :=
  match int_of t with
  | Some n => Got n
  | None => Failed ValueError
  end.

Definition py_float (t : token) : reading F :=
  match float_of t with
  | Some v => Got v
  | None => Failed ValueError
  end.

(** [x, y = map(float, (next(it), next(it)))]: the tuple takes both tokens
    before [float] converts the first. *)
Definition two_floats (it : list token) : reading ((F * F) * list token) :=
  (a <- next it ;;
   b <- next (snd a) ;;
   x' <- py_float (fst a) ;;
   y' <- py_float (fst b) ;;
   Got ((x', y'), snd b))%read.

Definition four_floats (it : list token)
  : reading (((F * F) * (F * F)) * list token) :=
  (a <- next it ;;
   b <- next (snd a) ;;
   c <- next (snd b) ;;
   d <- next (snd c) ;;
   v1 <- py_float (fst a) ;;
   v2 <- py_float (fst b) ;;
   v3 <- py_float (fst c) ;;
   v4 <- py_float (fst d) ;;
   Got (((v1, v2), (v3, v4)), snd d))%read.

(** Lines 125-127, [n] times. *)
Fixpoint read_points (n : nat) (pts : list (Point F)) (it : list token)
  : reading (list (Point F) * list token) :=
  match n with
  | O => Got (pts, it)
  | S n' =>
      (r <- two_floats it ;;
       read_points n' (pts ++ [{| x := fst (fst r); y := snd (fst r) |}])
         (snd r))%read
  end.

Definition read_polygon (parts : list token) : reading (list (Point F)) :=
  (t <- next parts ;;
   n <- py_int (fst t) ;;
   r <- read_points (Z.to_nat n) [] (snd t) ;;
   Got (fst r))%read.

(** Lines 112-114, [n] times. *)
Fixpoint read_segments (n : nat) (segs : list (Segment F)) (it : list token)
  : reading (list (Segment F) * list token) :=
  match n with
  | O => Got (segs, it)
  | S n' =>
      (r <- four_floats it ;;
       read_segments n'
         (segs ++ [{| p1 := {| x := fst (fst (fst r)); y := snd (fst (fst r)) |};
                      p2 := {| x := fst (snd (fst r)); y := snd (snd (fst r)) |} |}])
         (snd r))%read
  end.

Definition read_segments_rect (parts : list token)
  : reading (list (Segment F) * Rect F) :=
  (t <- next parts ;;
   n <- py_int (fst t) ;;
   r <- read_segments (Z.to_nat n) [] (snd t) ;;
   w <- four_floats (snd r) ;;
   Got (fst r,
        {| xmin := fst (fst (fst w)); ymin := snd (fst (fst w));
           xmax := fst (snd (fst w)); ymax := snd (snd (fst w)) |}))%read.

(** The tokens that spell a point, a segment and a rectangle. *)
Definition spells_point (c : token * token) (p : Point F) : Prop :=
  float_of (fst c) = Some (x p) /\ float_of (snd c) = Some (y p).

Definition spells_segment (c : (token * token) * (token * token))
  (s : Segment F) : Prop :=
  spells_point (fst c) (p1 s) /\ spells_point (snd c) (p2 s).

Definition spells_rect (c : (token * token) * (token * token))
  (r : Rect F) : Prop :=
  (float_of (fst (fst c)) = Some (xmin r) /\
   float_of (snd (fst c)) = Some (ymin r)) /\
  (float_of (fst (snd c)) = Some (xmax r) /\
   float_of (snd (snd c)) = Some (ymax r)).

End Readers.

Definition point_tokens (cs : list (token * token)) : list token :=
  flat_map (fun c => [fst c; snd c]) cs.

Definition four_tokens (c : (token * token) * (token * token)) : list token :=
  [fst (fst c); snd (fst c); fst (snd c); snd (snd c)].

Definition segment_tokens (cs : list ((token * token) * (token * token)))
  : list token :=
  flat_map four_tokens cs.

(** ** The handler run_segments_clip, up to its call of plot_segments *)



(** ** Inputs of the witnesses of the further properties *)

(** A conversion for the witnesses of the readers: unsigned decimal
    numerals, the part of what [int] and [float] accept that they need. *)
Fixpoint digits (s : String.string) (acc : Z) : option Z :=
  match s with
  | String.EmptyString => Some acc
  | String.String c s' =>
      let d := Z.of_nat (Ascii.nat_of_ascii c) in
      if ((48 <=? d) && (d <=? 57))%Z%bool
      then digits s' (10 * acc + (d - 48))%Z
      else None
  end.

Definition unsigned (t : token) : option Z :=
  match t with
  | String.EmptyString => None
  | _ => digits t 0%Z
  end.

Definition unsigned_Q (t : token) : option Q :=
  match unsigned t with
  | Some n => Some (inject_Z n)
  | None => None
  end.

Definition inner_segment : Segment Q := {| p1 := pt 1 0; p2 := pt 5 (1 # 2) |}.

Definition upper_segment : Segment Q := {| p1 := pt 1 5; p2 := pt 3 7 |}.


(** What the polygon clipper makes of the square and the triangle. *)
Definition square_clipped : list (Point Q) :=
  Eval vm_compute in
    match sutherland_hodgman_clip_polygon square triangle with
    | Returns out => out
    | _ => []
    end.

Definition small_triangle : list (Point Q) := [pt 1 1; pt 2 1; pt 1 2].



(** * Properties that hold at every instance of the numbers *)

Ltac break_match_hyp H :=
  repeat match type of H with
         | context [match ?e with _ => _ end] =>
             lazymatch e with
             | context [match _ with _ => _ end] => fail
             | _ => destruct e eqn:?
             end
         end.

Section AnyNumbers.

Context {F : Type} {N : Num F}.

Lemma entry_coded (seg : Segment F) (rect : Rect F) :
  coded rect (entry seg rect).
Proof. split; reflexivity. Qed.

Lemma loop_body_continue_coded (rect : Rect F) (l l' : locals F) :
  coded rect l ->
  loop_body rect l = Returns (Continue l') ->
  coded rect l'.
Proof.
  intros [H1 H2] H. unfold loop_body, bind in H.
  break_match_hyp H; try discriminate;
    injection H as <-; split; simpl; auto.
Qed.

Lemma loop_body_return_some (rect : Rect F) (l : locals F) (s : Segment F) :
  loop_body rect l = Returns (Return (Some s)) ->
  l_c1 l = 0%Z /\ l_c2 l = 0%Z /\ s = {| p1 := l_p1 l; p2 := l_p2 l |}.
Proof.
  intros H. unfold loop_body, bind in H.
  destruct ((l_c1 l =? 0)%Z && (l_c2 l =? 0)%Z)%bool eqn:E.
  - apply andb_prop in E as [E1 E2].
    apply Z.eqb_eq in E1, E2. injection H as <-. auto.
  - break_match_hyp H; discriminate.
Qed.

Lemma while_true_some_coded (fuel : nat) (rect : Rect F) :
  forall (l : locals F) (s : Segment F),
    coded rect l ->
    while_true fuel rect l = Returns (Some s) ->
    outcode rect (p1 s) = 0%Z /\ outcode rect (p2 s) = 0%Z.
Proof.
  induction fuel as [|fuel IH]; intros l s Hc H; simpl in H.
  - discriminate.
  - destruct (loop_body rect l) as [[r|l']| |] eqn:Hb; simpl in H;
      try discriminate.
    + injection H as ->.
      apply loop_body_return_some in Hb as (E1 & E2 & ->).
      destruct Hc as [C1 C2]. simpl. rewrite <- C1, <- C2. auto.
    + apply (IH l' s); [eapply loop_body_continue_coded; eassumption | exact H].
Qed.

(** A segment whose two endpoints have outcode 0 is returned as it is, on
    the first test of the loop. *)
Lemma clip_inside (fuel : nat) (seg : Segment F) (rect : Rect F) :
  outcode rect (p1 seg) = 0%Z ->
  outcode rect (p2 seg) = 0%Z ->
  cohen_sutherland_clip (S fuel) seg rect = Returns (Some seg).
Proof.
  destruct seg as [[a b] [c d]]. simpl. intros H1 H2.
  unfold cohen_sutherland_clip, entry. simpl.
  unfold loop_body. simpl. rewrite H1, H2. reflexivity.
Qed.

(** Two endpoints with one outcode: accepted at outcode 0, and rejected
    otherwise, on the first pass. *)
Lemma clip_same_outcode (fuel : nat) (seg : Segment F) (rect : Rect F) :
  outcode rect (p1 seg) = outcode rect (p2 seg) ->
  cohen_sutherland_clip (S fuel) seg rect =
  Returns (if (outcode rect (p1 seg) =? 0)%Z then Some seg else None).
Proof.
  destruct seg as [[a b] [c d]]. simpl. intros H.
  unfold cohen_sutherland_clip, entry. simpl.
  unfold loop_body. simpl. rewrite <- H.
  destruct (outcode rect {| x := a; y := b |} =? 0)%Z eqn:E; simpl.
  - reflexivity.
  - rewrite Z.land_diag. unfold truthy. rewrite E. reflexivity.
Qed.

Lemma getitem_lt (l : list (Point F)) (i : nat) :
  (i < length l)%nat -> exists p, getitem l i = Returns p.
Proof.
  intros H. unfold getitem.
  destruct (nth_error l i) eqn:E; eauto.
  apply nth_error_None in E. lia.
Qed.

Lemma pymod_lt (a b : nat) :
  (0 < b)%nat -> exists k, pymod a b = Returns k /\ (k < b)%nat /\ k = (a mod b)%nat.
Proof.
  intros H. exists (a mod b)%nat. split; [|split].
  - destruct b; [lia | reflexivity].
  - apply Nat.mod_upper_bound. lia.
  - reflexivity.
Qed.

Lemma edges_of_empty_subject (clipper : list (Point F)) :
  forall n start : nat,
    (start + n = length clipper)%nat ->
    for_range (edge_body clipper) start n [] = Returns [].
Proof.
  induction n as [|n IH]; intros start H; simpl.
  - reflexivity.
  - unfold edge_body at 1.
    destruct (@getitem_lt clipper start) as [A ->]; [lia|]. simpl.
    destruct (@pymod_lt (start + 1) (length clipper)) as (k & -> & Hk & _);
      [lia|]. simpl.
    destruct (@getitem_lt clipper k Hk) as [B ->]. simpl.
    apply IH. lia.
Qed.

End AnyNumbers.

(** * The exact model: rational coordinates *)

Lemma Qltb_spec (a b : Q) : BoolSpec (a < b) (b <= a) (Qltb a b).
Proof.
  unfold Qltb. destruct (Qle_bool b a) eqn:E; constructor.
  - apply Qle_bool_iff. exact E.
  - apply Qnot_le_lt. intros H. apply Qle_bool_iff in H. congruence.
Qed.

Lemma Qeq_bool_spec (a b : Q) : BoolSpec (a == b) (~ a == b) (Qeq_bool a b).
Proof.
  destruct (Qeq_bool a b) eqn:E; constructor.
  - apply Qeq_bool_iff. exact E.
  - apply Qeq_bool_neq. exact E.
Qed.


(** ** Outcodes read as zones

    On each axis a coordinate is below the window, within it or above it;
    the outcode packs the two zones of a point into bits. *)

Lemma outcode_zones (rect : Rect Q) (p : Point Q) :
  outcode rect p = Z.lor (hcode (hzone rect p)) (vcode (vzone rect p)).
Proof.
  unfold outcode, hzone, vzone, zone_of. simpl ltb.
  destruct (Qltb (x p) (xmin rect)), (Qltb (xmax rect) (x p)),
    (Qltb (y p) (ymin rect)), (Qltb (ymax rect) (y p)); reflexivity.
Qed.

Lemma zone_of_spec (lo hi v : Q) :
  match zone_of lo hi v with
  | Below => v < lo
  | Within => lo <= v /\ v <= hi
  | Above => lo <= v /\ hi < v
  end.
Proof.
  unfold zone_of.
  destruct (Qltb_spec v lo); [assumption|].
  destruct (Qltb_spec hi v); auto.
Qed.

Ltac case_interpolate :=
  repeat match goal with
         | |- context [interpolate ?a ?b ?m ?c ?d] =>
             destruct (interpolate a b m c d)
         end.

(** The loop body, read through the zones of its two endpoints. *)
Lemma loop_body_decide (rect : Rect Q) (l : locals Q) :
  coded rect l ->
  loop_body rect l =
  match decision_at rect l with
  | Accept => Returns (Return (Some {| p1 := l_p1 l; p2 := l_p2 l |}))
  | Reject => Returns (Return None)
  | Clip e s =>
      p <- clip_point s rect (l_p1 l) (l_p2 l) ;;
      Returns (Continue (replace rect e l p))
  end.
Proof.
  destruct l as [P1 P2 c1 c2 lx ly]. unfold coded, decision_at. simpl.
  intros [-> ->]. unfold loop_body, clip_point, replace. simpl.
  rewrite !outcode_zones.
  destruct (hzone rect P1), (vzone rect P1), (hzone rect P2), (vzone rect P2);
    simpl; unfold bind; case_interpolate; reflexivity.
Qed.


(** ** How many passes are left

    An endpoint that is out on one axis needs one pass, on both axes two; a
    pass moves its endpoint onto the window's line on the clipped axis and,
    on the other axis, somewhere between the two endpoints. *)


Lemma remaining_first (s : side) (h1 v1 h2 v2 hn vn : zone) :
  decide h1 v1 h2 v2 = Clip First s ->
  fits s h1 v1 h2 v2 hn vn = true ->
  (remaining First hn vn h2 v2 < remaining First h1 v1 h2 v2)%nat /\
  (remaining Second hn vn h2 v2 <= remaining Second h1 v1 h2 v2)%nat.
Proof.
  destruct h1, v1, h2, v2; simpl; intros H; try discriminate;
    injection H as <-; destruct hn, vn; simpl; intros H;
    try discriminate; unfold remaining, weight; simpl; lia.
Qed.

Lemma remaining_second (s : side) (h1 v1 h2 v2 hn vn : zone) :
  decide h1 v1 h2 v2 = Clip Second s ->
  fits s h2 v2 h1 v1 hn vn = true ->
  (remaining Second h1 v1 hn vn < remaining Second h1 v1 h2 v2)%nat /\
  (remaining First h1 v1 hn vn <= remaining First h1 v1 h2 v2)%nat.
Proof.
  destruct h1, v1, h2, v2; simpl; intros H; try discriminate;
    injection H as <-; destruct hn, vn; simpl; intros H;
    try discriminate; unfold remaining, weight; simpl; lia.
Qed.

(** ** The zones and the interpolation in coordinates *)

Lemma in_rect_not_beyond (s : side) (rect : Rect Q) (q : Point Q) :
  in_rect rect q -> ~ beyond s rect q.
Proof.
  unfold in_rect. destruct s; simpl; intros H B; lra.
Qed.

Lemma zone_of_lo (lo hi : Q) : lo <= hi -> zone_of lo hi lo = Within.
Proof.
  intros H. unfold zone_of.
  destruct (Qltb_spec lo lo); [lra|]. destruct (Qltb_spec hi lo); [lra|].
  reflexivity.
Qed.

Lemma zone_of_hi (lo hi : Q) : lo <= hi -> zone_of lo hi hi = Within.
Proof.
  intros H. unfold zone_of.
  destruct (Qltb_spec hi lo); [lra|]. destruct (Qltb_spec hi hi); [lra|].
  reflexivity.
Qed.

Lemma zone_mid_between (lo hi a b n : Q) :
  (a <= n /\ n <= b) \/ (b <= n /\ n <= a) ->
  zone_mid (zone_of lo hi a) (zone_of lo hi b) (zone_of lo hi n) = true.
Proof.
  intros H.
  pose proof (zone_of_spec lo hi a) as Za.
  pose proof (zone_of_spec lo hi b) as Zb.
  pose proof (zone_of_spec lo hi n) as Zn.
  destruct (zone_of lo hi a), (zone_of lo hi b), (zone_of lo hi n);
    simpl; try reflexivity; exfalso; lra.
Qed.

(** What the decision to clip says of the two endpoints. *)
Lemma decide_clip (rect : Rect Q) (P1 P2 : Point Q) (e : endpoint) (s : side) :
  valid_rect rect ->
  decide (hzone rect P1) (vzone rect P1) (hzone rect P2) (vzone rect P2)
    = Clip e s ->
  match e with
  | First => beyond s rect P1 /\ ~ beyond s rect P2
  | Second => beyond s rect P2 /\ ~ beyond s rect P1
  end.
Proof.
  intros [Vx Vy]. unfold hzone, vzone.
  pose proof (zone_of_spec (xmin rect) (xmax rect) (x P1)) as Z1.
  pose proof (zone_of_spec (ymin rect) (ymax rect) (y P1)) as Z2.
  pose proof (zone_of_spec (xmin rect) (xmax rect) (x P2)) as Z3.
  pose proof (zone_of_spec (ymin rect) (ymax rect) (y P2)) as Z4.
  destruct (zone_of (xmin rect) (xmax rect) (x P1)),
    (zone_of (ymin rect) (ymax rect) (y P1)),
    (zone_of (xmin rect) (xmax rect) (x P2)),
    (zone_of (ymin rect) (ymax rect) (y P2));
    simpl; intros H; try discriminate; injection H as <- <-; simpl;
    split; lra.
Qed.

Lemma interpolate_exact (a b m c d : Q) :
  ~ d - c == 0 ->
  interpolate a b m c d = Returns (a + (b - a) * (m - c) / (d - c)).
Proof.
  intros H. unfold interpolate, div. simpl.
  destruct (Qeq_bool_spec (d - c) 0); [contradiction | reflexivity].
Qed.

Lemma interpolate_param (a b m c d : Q) :
  ~ d - c == 0 ->
  (c <= m /\ m <= d) \/ (d <= m /\ m <= c) ->
  exists s : Q, (0 <= s /\ s <= 1) /\
    a + (b - a) * (m - c) / (d - c) == a + s * (b - a) /\
    m == c + s * (d - c).
Proof.
  intros Hd Hm. exists ((m - c) / (d - c)). split; [|split].
  - destruct (Qlt_le_dec 0 (d - c)) as [L|L].
    + split; [apply Qle_shift_div_l | apply Qle_shift_div_r]; lra.
    + assert (L' : d - c < 0)
        by (destruct (Qeq_dec (d - c) 0); [contradiction | lra]).
      assert (E : (m - c) / (d - c) == (c - m) / (c - d))
        by (field; split; lra).
      rewrite E.
      split; [apply Qle_shift_div_l | apply Qle_shift_div_r]; lra.
  - field. lra.
  - field. lra.
Qed.

Lemma lerp_bounds (a b s : Q) :
  0 <= s /\ s <= 1 ->
  let n := a + s * (b - a) in (a <= n /\ n <= b) \/ (b <= n /\ n <= a).
Proof.
  intros Hs n. subst n.
  destruct (Qlt_le_dec a b); [left | right]; nra.
Qed.

Lemma clip_point_spec (rect : Rect Q) (P1 P2 : Point Q) (e : endpoint) (s : side) :
  match e with
  | First => beyond s rect P1 /\ ~ beyond s rect P2
  | Second => beyond s rect P2 /\ ~ beyond s rect P1
  end ->
  exists (n : Point Q) (sp : Q),
    clip_point s rect P1 P2 = Returns n /\
    (0 <= sp /\ sp <= 1) /\ lerp P1 P2 sp n /\ on_line s rect n.
Proof.
  intros H.
  assert (D : match s with
              | STop | SBottom => ~ y P2 - y P1 == 0
              | SRight | SLeft => ~ x P2 - x P1 == 0
              end)
    by (destruct e, s; simpl in *; lra).
  unfold clip_point, lerp.
  destruct s; rewrite (interpolate_exact _ _ _ D); simpl bind.
  - destruct (@interpolate_param (x P1) (x P2) (ymax rect) (y P1) (y P2) D)
      as (sp & Hs & E1 & E2); [destruct e; simpl in *; lra|].
    eexists; exists sp; simpl; repeat split; auto; lra.
  - destruct (@interpolate_param (x P1) (x P2) (ymin rect) (y P1) (y P2) D)
      as (sp & Hs & E1 & E2); [destruct e; simpl in *; lra|].
    eexists; exists sp; simpl; repeat split; auto; lra.
  - destruct (@interpolate_param (y P1) (y P2) (xmax rect) (x P1) (x P2) D)
      as (sp & Hs & E1 & E2); [destruct e; simpl in *; lra|].
    eexists; exists sp; simpl; repeat split; auto; lra.
  - destruct (@interpolate_param (y P1) (y P2) (xmin rect) (x P1) (x P2) D)
      as (sp & Hs & E1 & E2); [destruct e; simpl in *; lra|].
    eexists; exists sp; simpl; repeat split; auto; lra.
Qed.

(** ** A pass keeps what is in the window and nothing else *)

Lemma param_after (a b m sp v : Q) :
  m == a + sp * (b - a) -> 0 <= sp ->
  (m < a /\ a + v * (b - a) <= m) \/ (a < m /\ m <= a + v * (b - a)) ->
  sp <= v.
Proof.
  intros Hm Hs H.
  destruct (Qlt_le_dec v sp) as [L|L]; [exfalso | exact L].
  destruct H as [[H1 H2]|[H1 H2]]; nra.
Qed.

Lemma param_before (a b m sp v : Q) :
  m == a + sp * (b - a) -> sp <= 1 ->
  (m < b /\ a + v * (b - a) <= m) \/ (b < m /\ m <= a + v * (b - a)) ->
  v <= sp.
Proof.
  intros Hm Hs H.
  destruct (Qlt_le_dec sp v) as [L|L]; [exfalso | exact L].
  destruct H as [[H1 H2]|[H1 H2]]; nra.
Qed.

Lemma between_shrink_first (A B n q : Point Q) (sp : Q) :
  0 <= sp /\ sp <= 1 -> lerp A B sp n -> between n B q -> between A B q.
Proof.
  intros Hs [Nx Ny] (u & Hu & Qx & Qy).
  exists (sp + u * (1 - sp)). split; [nra|].
  rewrite Qx, Qy, Nx, Ny. split; ring.
Qed.

Lemma between_shrink_second (A B n q : Point Q) (sp : Q) :
  0 <= sp /\ sp <= 1 -> lerp A B sp n -> between A n q -> between A B q.
Proof.
  intros Hs [Nx Ny] (u & Hu & Qx & Qy).
  exists (u * sp). split; [nra|].
  rewrite Qx, Qy, Nx, Ny. split; ring.
Qed.

Lemma between_keep_first (A B n q : Point Q) (sp v : Q) :
  0 <= sp -> sp <= v -> v <= 1 ->
  lerp A B sp n -> lerp A B v q -> between n B q.
Proof.
  intros H0 H1 H2 [Nx Ny] [Qx Qy].
  destruct (Qeq_dec sp 1) as [E|E].
  - exists 0. split; [lra|].
    assert (Ev : v == 1) by lra.
    rewrite Qx, Qy, Nx, Ny, Ev, E. split; ring.
  - exists ((v - sp) / (1 - sp)). split.
    + split; [apply Qle_shift_div_l | apply Qle_shift_div_r]; lra.
    + rewrite Qx, Qy, Nx, Ny. split; field; lra.
Qed.

Lemma between_keep_second (A B n q : Point Q) (sp v : Q) :
  0 <= v -> v <= sp -> sp <= 1 ->
  lerp A B sp n -> lerp A B v q -> between A n q.
Proof.
  intros H0 H1 H2 [Nx Ny] [Qx Qy].
  destruct (Qeq_dec sp 0) as [E|E].
  - exists 0. split; [lra|].
    assert (Ev : v == 0) by lra.
    rewrite Qx, Qy, Ev. split; ring.
  - exists (v / sp). split.
    + split; [apply Qle_shift_div_l | apply Qle_shift_div_r]; lra.
    + rewrite Qx, Qy, Nx, Ny. split; field; lra.
Qed.

Lemma no_loss_first (s : side) (rect : Rect Q) (A B n q : Point Q) (sp : Q) :
  0 <= sp /\ sp <= 1 -> lerp A B sp n -> on_line s rect n ->
  beyond s rect A -> between A B q -> ~ beyond s rect q ->
  between n B q.
Proof.
  intros Hs Hn Hl HA (v & Hv & Qx & Qy) Hq.
  assert (L : sp <= v); [|apply (@between_keep_first A B n q sp v);
                           solve [lra | assumption | split; assumption]].
  destruct Hn as [Nx Ny].
  destruct s; simpl in *; rewrite Hl in *.
  - apply (@param_after (y A) (y B) (ymax rect)); [assumption | lra | lra].
  - apply (@param_after (y A) (y B) (ymin rect)); [assumption | lra | lra].
  - apply (@param_after (x A) (x B) (xmax rect)); [assumption | lra | lra].
  - apply (@param_after (x A) (x B) (xmin rect)); [assumption | lra | lra].
Qed.

Lemma no_loss_second (s : side) (rect : Rect Q) (A B n q : Point Q) (sp : Q) :
  0 <= sp /\ sp <= 1 -> lerp A B sp n -> on_line s rect n ->
  beyond s rect B -> between A B q -> ~ beyond s rect q ->
  between A n q.
Proof.
  intros Hs Hn Hl HB (v & Hv & Qx & Qy) Hq.
  assert (L : v <= sp); [|apply (@between_keep_second A B n q sp v);
                           solve [lra | assumption | split; assumption]].
  destruct Hn as [Nx Ny].
  destruct s; simpl in *; rewrite Hl in *.
  - apply (@param_before (y A) (y B) (ymax rect)); [assumption | lra | lra].
  - apply (@param_before (y A) (y B) (ymin rect)); [assumption | lra | lra].
  - apply (@param_before (x A) (x B) (xmax rect)); [assumption | lra | lra].
  - apply (@param_before (x A) (x B) (xmin rect)); [assumption | lra | lra].
Qed.

(** One clipping pass: the division is defined, the new segment is the part
    of the old one that the clipped side does not exclude, and fewer passes
    are left. *)
Lemma clip_step (rect : Rect Q) (l : locals Q) (e : endpoint) (s : side) :
  valid_rect rect ->
  coded rect l ->
  decision_at rect l = Clip e s ->
  exists n : Point Q,
    clip_point s rect (l_p1 l) (l_p2 l) = Returns n /\
    let l' := replace rect e l n in
    coded rect l' /\
    (forall q, between (l_p1 l') (l_p2 l') q -> between (l_p1 l) (l_p2 l) q) /\
    (forall q, between (l_p1 l) (l_p2 l) q -> in_rect rect q ->
               between (l_p1 l') (l_p2 l') q) /\
    (remaining_at e rect l' < remaining_at e rect l)%nat /\
    (remaining_at (other e) rect l' <= remaining_at (other e) rect l)%nat.
Proof.
  intros V Hc Hd. unfold decision_at in Hd.
  pose proof (decide_clip _ _ V Hd) as Hb.
  destruct (clip_point_spec rect (l_p1 l) (l_p2 l) e s Hb)
    as (n & sp & Hn & Hs & Hl & Ho).
  exists n. split; [exact Hn|]. cbv zeta.
  assert (Hx := lerp_bounds (x (l_p1 l)) (x (l_p2 l)) Hs).
  assert (Hy := lerp_bounds (y (l_p1 l)) (y (l_p2 l)) Hs).
  cbv zeta in Hx, Hy. destruct V as [Vx Vy].
  assert (Hf : match e with
               | First =>
                   fits s (hzone rect (l_p1 l)) (vzone rect (l_p1 l))
                     (hzone rect (l_p2 l)) (vzone rect (l_p2 l))
                     (hzone rect n) (vzone rect n)
               | Second =>
                   fits s (hzone rect (l_p2 l)) (vzone rect (l_p2 l))
                     (hzone rect (l_p1 l)) (vzone rect (l_p1 l))
                     (hzone rect n) (vzone rect n)
               end = true).
  { destruct Hl as [Nx Ny].
    destruct e, s; simpl in Ho |- *; unfold hzone, vzone; rewrite Ho;
      rewrite ?zone_of_hi, ?zone_of_lo by assumption; simpl;
      apply zone_mid_between; lra. }
  destruct Hc as [C1 C2].
  destruct e; simpl.
  - split; [split; simpl; auto|]. split; [|split].
    + intros q. apply (between_shrink_first Hs Hl).
    + intros q Hq Hin. destruct Hb as [B1 B2].
      apply (@no_loss_first s rect _ _ _ _ sp Hs Hl Ho B1 Hq).
      apply in_rect_not_beyond. exact Hin.
    + exact (@remaining_first s _ _ _ _ _ _ Hd Hf).
  - split; [split; simpl; auto|]. split; [|split].
    + intros q. apply (between_shrink_second Hs Hl).
    + intros q Hq Hin. destruct Hb as [B1 B2].
      apply (@no_loss_second s rect _ _ _ _ sp Hs Hl Ho B1 Hq).
      apply in_rect_not_beyond. exact Hin.
    + exact (@remaining_second s _ _ _ _ _ _ Hd Hf).
Qed.

(** ** Accepting and rejecting *)









(** ** The whole loop *)




(** No pass of the loop raises, whatever the fuel. *)
Lemma while_true_no_raise (rect : Rect Q) :
  valid_rect rect ->
  forall (fuel : nat) (l : locals Q) (err : exn),
    coded rect l -> while_true fuel rect l <> Raises err.
Proof.
  intros V. induction fuel as [|fuel IH]; intros l err Hc; [discriminate|].
  simpl while_true. rewrite (loop_body_decide Hc).
  destruct (decision_at rect l) as [| |e s] eqn:Hd; try discriminate.
  destruct (clip_step V Hc Hd) as (n & Hn & Hc' & _).
  rewrite Hn. simpl bind. apply IH. exact Hc'.
Qed.

Lemma entry_between (seg : Segment Q) (rect : Rect Q) (q : Point Q) :
  between (l_p1 (entry seg rect)) (l_p2 (entry seg rect)) q <->
  on_segment seg q.
Proof. reflexivity. Qed.

Lemma reaches_coded (rect : Rect Q) (l l' : locals Q) :
  coded rect l -> reaches rect l l' -> coded rect l'.
Proof.
  intros Hc H. induction H as [|l' l'' _ IH Hb]; [exact Hc|].
  exact (loop_body_continue_coded IH Hb).
Qed.

Lemma denominator_decide (rect : Rect Q) (l : locals Q) :
  coded rect l ->
  denominator rect l =
  match decision_at rect l with
  | Clip _ (STop | SBottom) => Some (y (l_p2 l) - y (l_p1 l))
  | Clip _ (SRight | SLeft) => Some (x (l_p2 l) - x (l_p1 l))
  | _ => None
  end.
Proof.
  destruct l as [P1 P2 c1 c2 lx ly]. unfold coded, decision_at. simpl.
  intros [-> ->]. unfold denominator. simpl.
  rewrite !outcode_zones.
  destruct (hzone rect P1), (vzone rect P1), (hzone rect P2), (vzone rect P2);
    reflexivity.
Qed.

(** * The claims on cohen_sutherland_clip *)



(** C3. For a valid rectangle, [cohen_sutherland_clip] never divides by
    zero: no run raises [ZeroDivisionError], whatever the number of passes,
    and at every pass the loop can reach, the divisor of the interpolation
    branch it executes ([p2.y - p1.y] for TOP and BOTTOM, [p2.x - p1.x] for
    RIGHT and LEFT) is not zero. *)
Theorem cohen_sutherland_clip_no_zero_division
  (seg : Segment Q) (rect : Rect Q) :
  valid_rect rect ->
  (forall fuel : nat,
     cohen_sutherland_clip fuel seg rect <> Raises ZeroDivisionError) /\
  (forall (l : locals Q) (d : Q),
     reaches rect (entry seg rect) l ->
     denominator rect l = Some d ->
     ~ d == 0 /\ eqb d zero = false).
Proof.
  intros V. split.
  - intros fuel. apply (while_true_no_raise V). apply entry_coded.
  - intros l d Hr Hd.
    assert (Hc : coded rect l) by (apply (reaches_coded (entry_coded seg rect) Hr)).
    rewrite (denominator_decide Hc) in Hd.
    assert (Hn : ~ d == 0).
    { destruct (decision_at rect l) as [| |e s] eqn:E; try discriminate.
      pose proof (decide_clip _ _ V E) as Hb.
      destruct e, s; simpl in Hb; injection Hd as <-; lra. }
    split; [exact Hn|]. simpl.
    destruct (Qeq_bool_spec d 0); [contradiction | reflexivity].
Qed.

Lemma cohen_sutherland_clip_no_zero_division_witness :
  valid_rect window /\
  (forall fuel : nat,
     cohen_sutherland_clip fuel crossing window <> Raises ZeroDivisionError) /\
  (forall (l : locals Q) (d : Q),
     reaches window (entry crossing window) l ->
     denominator window l = Some d ->
     ~ d == 0 /\ eqb d zero = false).
Proof.
  assert (V : valid_rect window) by (split; simpl; lra).
  split; [exact V|].
  apply (@cohen_sutherland_clip_no_zero_division crossing window V).
Defined.



(** A run that takes all four clipping passes, two for each endpoint. *)
Example four_passes :
  clipped 5 {| xmin := 0; ymin := 0; xmax := 10; ymax := 10 |}
    (entry {| p1 := pt (-5) 11; p2 := pt 15 (-1) |}
           {| xmin := 0; ymin := 0; xmax := 10; ymax := 10 |})
  = [First; First; Second; Second].
Proof. vm_compute. reflexivity. Qed.

(** Scenario 2 of the specification: a segment beyond the top right corner
    is rejected on the first pass. *)
Example scenario_outside :
  cohen_sutherland_clip 1 {| p1 := pt 20 20; p2 := pt 30 30 |}
    {| xmin := 0; ymin := 0; xmax := 10; ymax := 10 |} = Returns None.
Proof. vm_compute. reflexivity. Qed.

(** C5. Clipping is idempotent: a segment that [cohen_sutherland_clip]
    returned is returned as it is, with equal coordinates, when it is clipped
    against the same rectangle again.  This holds at every instance of the
    numbers, binary64 included. *)
Theorem cohen_sutherland_clip_idempotent
  {F : Type} {N : Num F}
  (fuel fuel' : nat) (seg s' : Segment F) (rect : Rect F) :
  cohen_sutherland_clip fuel seg rect = Returns (Some s') ->
  cohen_sutherland_clip (S fuel') s' rect = Returns (Some s').
Proof.
  intros H. unfold cohen_sutherland_clip in H.
  apply (while_true_some_coded fuel (entry_coded seg rect)) in H as [H1 H2].
  apply clip_inside; assumption.
Qed.

Lemma cohen_sutherland_clip_idempotent_witness :
  cohen_sutherland_clip 5 crossing window = Returns (Some crossing_clipped) /\
  cohen_sutherland_clip 1 crossing_clipped window
    = Returns (Some crossing_clipped).
Proof.
  assert (H : cohen_sutherland_clip 5 crossing window
              = Returns (Some crossing_clipped)) by (vm_compute; reflexivity).
  split; [exact H|].
  apply (@cohen_sutherland_clip_idempotent Q Q_Num 5 0 crossing
           crossing_clipped window H).
Defined.

Lemma zone_of_compat (lo hi v w : Q) :
  v == w -> zone_of lo hi v = zone_of lo hi w.
Proof.
  intros E. unfold zone_of.
  destruct (Qltb_spec v lo), (Qltb_spec w lo); try lra; try reflexivity.
  destruct (Qltb_spec hi v), (Qltb_spec hi w); try lra; reflexivity.
Qed.

Lemma outcode_compat (rect : Rect Q) (p q : Point Q) :
  x p == x q -> y p == y q -> outcode rect p = outcode rect q.
Proof.
  intros Ex Ey. rewrite !outcode_zones. unfold hzone, vzone.
  rewrite (zone_of_compat _ _ Ex), (zone_of_compat _ _ Ey). reflexivity.
Qed.

(** Outcode 0 is the closed rectangle. *)
Lemma outcode_0_in_rect (rect : Rect Q) (p : Point Q) :
  outcode rect p = 0%Z <-> in_rect rect p.
Proof.
  rewrite outcode_zones. unfold hzone, vzone, in_rect.
  pose proof (zone_of_spec (xmin rect) (xmax rect) (x p)) as Zx.
  pose proof (zone_of_spec (ymin rect) (ymax rect) (y p)) as Zy.
  destruct (zone_of (xmin rect) (xmax rect) (x p)),
    (zone_of (ymin rect) (ymax rect) (y p)); simpl;
    split; intros H; try discriminate; try lra; auto.
Qed.

(** C7. A zero-length segment ([p1 == p2]) is treated as one point: it is
    returned unchanged when the outcode of the point is 0, which is when the
    point is in the closed rectangle, and [None] is returned otherwise. *)
Theorem cohen_sutherland_clip_zero_length
  (fuel : nat) (seg : Segment Q) (rect : Rect Q) :
  valid_rect rect ->
  x (p1 seg) == x (p2 seg) ->
  y (p1 seg) == y (p2 seg) ->
  (outcode rect (p1 seg) = 0%Z <-> in_rect rect (p1 seg)) /\
  cohen_sutherland_clip (S fuel) seg rect =
  Returns (if (outcode rect (p1 seg) =? 0)%Z then Some seg else None).
Proof.
  intros _ Ex Ey. split; [apply outcode_0_in_rect|].
  apply clip_same_outcode. apply outcode_compat; assumption.
Qed.

Lemma cohen_sutherland_clip_zero_length_witness :
  valid_rect window /\
  x (p1 {| p1 := pt 3 (1 # 2); p2 := pt (6 # 2) (2 # 4) |})
    == x (p2 {| p1 := pt 3 (1 # 2); p2 := pt (6 # 2) (2 # 4) |}) /\
  y (p1 {| p1 := pt 3 (1 # 2); p2 := pt (6 # 2) (2 # 4) |})
    == y (p2 {| p1 := pt 3 (1 # 2); p2 := pt (6 # 2) (2 # 4) |}) /\
  (outcode window (pt 3 (1 # 2)) = 0%Z <-> in_rect window (pt 3 (1 # 2))) /\
  cohen_sutherland_clip 1 {| p1 := pt 3 (1 # 2); p2 := pt (6 # 2) (2 # 4) |}
    window
  = Returns (Some {| p1 := pt 3 (1 # 2); p2 := pt (6 # 2) (2 # 4) |}).
Proof.
  assert (V : valid_rect window) by (split; simpl; lra).
  assert (Ex : x (p1 {| p1 := pt 3 (1 # 2); p2 := pt (6 # 2) (2 # 4) |})
               == x (p2 {| p1 := pt 3 (1 # 2); p2 := pt (6 # 2) (2 # 4) |}))
    by reflexivity.
  assert (Ey : y (p1 {| p1 := pt 3 (1 # 2); p2 := pt (6 # 2) (2 # 4) |})
               == y (p2 {| p1 := pt 3 (1 # 2); p2 := pt (6 # 2) (2 # 4) |}))
    by reflexivity.
  split; [exact V|]. split; [exact Ex|]. split; [exact Ey|].
  apply (@cohen_sutherland_clip_zero_length 0
           {| p1 := pt 3 (1 # 2); p2 := pt (6 # 2) (2 # 4) |} window V Ex Ey).
Defined.

(** C9. The segment from (-5,0) to (5,0), clipped against the rectangle
    (xmin=0, ymin=-1, xmax=10, ymax=1), gives the segment from (0,0) to
    (5,0): in exact arithmetic and on binary64 numbers, after one clipping
    pass and one accepting pass. *)
Theorem scenario_segment (fuel : nat) :
  (exists s' : Segment Q,
     cohen_sutherland_clip (2 + fuel) crossing window = Returns (Some s') /\
     (x (p1 s') == 0 /\ y (p1 s') == 0) /\
     (x (p2 s') == 5 /\ y (p2 s') == 0)) /\
  cohen_sutherland_clip (2 + fuel) fcrossing fwindow
  = Returns (Some {| p1 := fpt 0 0; p2 := fpt 5 0 |}).
Proof.
  split.
  - exists crossing_clipped. split; [vm_compute; reflexivity|].
    repeat split; reflexivity.
  - vm_compute. reflexivity.
Qed.

(** * The claims on sutherland_hodgman_clip_polygon *)

(** C2, as the code has it.  An empty subject gives an empty polygon for every
    clipper; an empty clipper gives back the subject, unchanged, for every
    subject (the loop over the clip edges runs no pass).  This holds at every
    instance of the numbers. *)
Theorem clip_polygon_empty {F : Type} {N : Num F} :
  (forall clipper : list (Point F),
     sutherland_hodgman_clip_polygon [] clipper = Returns []) /\
  (forall poly : list (Point F),
     sutherland_hodgman_clip_polygon poly [] = Returns poly).
Proof.
  split.
  - intros clipper. unfold sutherland_hodgman_clip_polygon.
    apply edges_of_empty_subject. reflexivity.
  - intros poly. reflexivity.
Qed.

(** C2, as the claim has it, fails: the square clipped by an empty clipper
    is the square, not an empty polygon. *)
Lemma clip_polygon_empty_clipper_counterexample :
  sutherland_hodgman_clip_polygon square [] = Returns square /\
  sutherland_hodgman_clip_polygon square [] <> Returns [].
Proof. split; [reflexivity | discriminate]. Qed.









(** C6. The square [(0,0),(4,0),(4,4),(0,4)] clipped by the triangle
    [(0,0),(4,0),(0,4)] gives [(0,4),(0,4),(0,0),(4,0),(4,0)]: without the
    repeated vertices these are the three vertices of the triangle, in the
    triangle's order (started at its third vertex), so the polygon is the
    triangle, and its area is 8.  The run on binary64 numbers gives the same
    vertices. *)
Theorem scenario_polygon :
  (exists out : list (Point Q),
     sutherland_hodgman_clip_polygon square triangle = Returns out /\
     polygon_eqb out [pt 0 4; pt 0 4; pt 0 0; pt 4 0; pt 4 0] = true /\
     length (distinct_vertices out) = 3%nat /\
     polygon_eqb (distinct_vertices out) (rotate 2 triangle) = true /\
     area out == 8 /\ area triangle == 8) /\
  (exists fout : list (Point float),
     sutherland_hodgman_clip_polygon fsquare ftriangle = Returns fout /\
     fpolygon_eqb fout [fpt 0 4; fpt 0 4; fpt 0 0; fpt 4 0; fpt 4 0] = true).
Proof.
  split.
  - eexists. split; [vm_compute; reflexivity|].
    repeat split; vm_compute; reflexivity.
  - eexists. split; [vm_compute; reflexivity|]. vm_compute. reflexivity.
Qed.

(** * Where binary64 leaves the exact model

    The theorems on arbitrary inputs above are theorems of exact arithmetic.
    On binary64 numbers a difference of two coordinates can overflow: with a
    subject vertex at [y = 2^1023] and the clipper's vertex at [y = -2^1023],
    [p.y - a.y] is infinite, its product with the zero [b.x - a.x] is not a
    number, the inside test is false, and the single-vertex clipper leaves
    nothing of the subject. *)
Example binary64_overflow :
  sutherland_hodgman_clip_polygon
    [fpt 0 0x1p+1023] [fpt 0 (-0x1p+1023)] = Returns [].
Proof. vm_compute. reflexivity. Qed.

(** * Further properties of cohen_sutherland_clip *)

Section MoreOfAnyNumbers.

Context {F : Type} {N : Num F}.

(** X6. The outcode, read back bit by bit: LEFT is [x < xmin], RIGHT is
    [x > xmax] where LEFT is not set, BOTTOM is [y < ymin], TOP is [y > ymax]
    where BOTTOM is not set; no other bit is set. *)
Theorem outcode_bits (rect : Rect F) (p : Point F) :
  truthy (Z.land (outcode rect p) LEFT) = ltb (x p) (xmin rect) /\
  truthy (Z.land (outcode rect p) RIGHT)
    = (negb (ltb (x p) (xmin rect)) && ltb (xmax rect) (x p))%bool /\
  truthy (Z.land (outcode rect p) BOTTOM) = ltb (y p) (ymin rect) /\
  truthy (Z.land (outcode rect p) TOP)
    = (negb (ltb (y p) (ymin rect)) && ltb (ymax rect) (y p))%bool /\
  Z.land (outcode rect p) (Z.lor (Z.lor LEFT RIGHT) (Z.lor BOTTOM TOP))
    = outcode rect p.
Proof.
  unfold outcode.
  destruct (ltb (x p) (xmin rect)), (ltb (xmax rect) (x p)),
    (ltb (y p) (ymin rect)), (ltb (ymax rect) (y p));
    repeat split; reflexivity.
Qed.

Ltac case_interpolate_hyp H :=
  repeat match type of H with
         | context [interpolate ?a ?b ?m ?c ?d] =>
             destruct (interpolate a b m c d)
         end.

(** A pass that goes round again replaces one endpoint, the first one if its
    outcode is not 0 and else the second, by a point on a line of the
    window; the other endpoint and its outcode stay. *)
Lemma loop_body_continue_endpoints (rect : Rect F) (l l' : locals F) :
  coded rect l ->
  loop_body rect l = Returns (Continue l') ->
  (l_c1 l <> 0%Z /\ on_window_line rect (l_p1 l') /\
   l_p2 l' = l_p2 l /\ l_c2 l' = l_c2 l) \/
  (l_c1 l = 0%Z /\ l_c2 l <> 0%Z /\ on_window_line rect (l_p2 l') /\
   l_p1 l' = l_p1 l /\ l_c1 l' = l_c1 l).
Proof.
  destruct l as [P1 P2 c1 c2 lx ly]. unfold coded. simpl.
  intros [-> ->] H. unfold loop_body in H. simpl in H.
  unfold on_window_line, outcode in *.
  destruct (ltb (x P1) (xmin rect)), (ltb (xmax rect) (x P1)),
    (ltb (y P1) (ymin rect)), (ltb (ymax rect) (y P1)),
    (ltb (x P2) (xmin rect)), (ltb (xmax rect) (x P2)),
    (ltb (y P2) (ymin rect)), (ltb (ymax rect) (y P2));
    simpl in H; try discriminate;
    unfold bind in H; case_interpolate_hyp H; try discriminate;
    injection H as <-; simpl;
    solve [ left; repeat split; auto; discriminate
          | right; repeat split; auto; discriminate ].
Qed.

Lemma while_true_endpoints (fuel : nat) (rect : Rect F) :
  forall (l : locals F) (s : Segment F),
    coded rect l ->
    while_true fuel rect l = Returns (Some s) ->
    ((p1 s = l_p1 l \/ on_window_line rect (p1 s)) /\
     (l_c1 l = 0%Z -> p1 s = l_p1 l)) /\
    ((p2 s = l_p2 l \/ on_window_line rect (p2 s)) /\
     (l_c2 l = 0%Z -> p2 s = l_p2 l)).
Proof.
  induction fuel as [|fuel IH]; intros l s Hc H; simpl in H.
  - discriminate.
  - destruct (loop_body rect l) as [[r|l']| |] eqn:Hb; simpl in H;
      try discriminate.
    + injection H as ->.
      apply loop_body_return_some in Hb as (_ & _ & ->). simpl. auto.
    + pose proof (loop_body_continue_coded Hc Hb) as Hc'.
      destruct (IH l' s Hc' H) as [[A1 A2] [B1 B2]].
      destruct (loop_body_continue_endpoints Hc Hb)
        as [(Z1 & L & E2 & E2')|(Z1 & Z2 & L & E1 & E1')].
      * rewrite E2, E2' in *. repeat split; auto.
        -- destruct A1 as [->|?]; auto.
        -- intros. contradiction.
      * rewrite E1, E1' in *. repeat split; auto.
        -- destruct B1 as [->|?]; auto.
        -- intros. contradiction.
Qed.

Lemma entry_endpoints (seg : Segment F) (rect : Rect F) :
  l_p1 (entry seg rect) = p1 seg /\ l_p2 (entry seg rect) = p2 seg.
Proof. destruct seg as [[a b] [c d]]. split; reflexivity. Qed.

(** X3. An endpoint whose outcode is 0 is never moved: when a segment
    comes back, the endpoint is the input's, with the very same
    coordinates.  At every instance of the numbers. *)
Theorem inside_endpoint_kept
  (fuel : nat) (seg s' : Segment F) (rect : Rect F) :
  cohen_sutherland_clip fuel seg rect = Returns (Some s') ->
  (outcode rect (p1 seg) = 0%Z -> p1 s' = p1 seg) /\
  (outcode rect (p2 seg) = 0%Z -> p2 s' = p2 seg).
Proof.
  intros H. unfold cohen_sutherland_clip in H.
  destruct (while_true_endpoints fuel (entry_coded seg rect) H)
    as [[_ A] [_ B]].
  destruct (entry_endpoints seg rect) as [E1 E2].
  rewrite E1 in A. rewrite E2 in B.
  split; intros Z0; [apply A | apply B];
    simpl; destruct seg as [[a b] [c d]]; exact Z0.
Qed.

(** X4. Each endpoint of a returned segment is the input's endpoint or lies
    on one of the four lines [x = xmin], [x = xmax], [y = ymin], [y = ymax]
    with that bound as its coordinate, unrounded.  At every instance of the
    numbers. *)
Theorem returned_endpoints_on_window
  (fuel : nat) (seg s' : Segment F) (rect : Rect F) :
  cohen_sutherland_clip fuel seg rect = Returns (Some s') ->
  (p1 s' = p1 seg \/ on_window_line rect (p1 s')) /\
  (p2 s' = p2 seg \/ on_window_line rect (p2 s')).
Proof.
  intros H. unfold cohen_sutherland_clip in H.
  destruct (while_true_endpoints fuel (entry_coded seg rect) H)
    as [[A _] [B _]].
  destruct (entry_endpoints seg rect) as [E1 E2].
  rewrite E1 in A. rewrite E2 in B. split; assumption.
Qed.

(** Two outcodes with a common bit: [None] on the first pass. *)
Lemma clip_common_bit (fuel : nat) (seg : Segment F) (rect : Rect F) :
  Z.land (outcode rect (p1 seg)) (outcode rect (p2 seg)) <> 0%Z ->
  cohen_sutherland_clip (S fuel) seg rect = Returns None.
Proof.
  destruct seg as [[a b] [c d]]. simpl. intros H.
  unfold cohen_sutherland_clip, entry. simpl.
  unfold loop_body. simpl.
  destruct (outcode rect {| x := a; y := b |} =? 0)%Z eqn:E1.
  - apply Z.eqb_eq in E1. rewrite E1 in H. simpl in H. contradiction.
  - simpl. unfold truthy.
    destruct (Z.eqb_spec
      (Z.land (outcode rect {| x := a; y := b |})
              (outcode rect {| x := c; y := d |})) 0); [contradiction|].
    reflexivity.
Qed.

End MoreOfAnyNumbers.

(** X1. A segment with both endpoints in the closed rectangle is returned
    as it is, on the first test of the loop. *)
Theorem segment_inside_unchanged
  (fuel : nat) (seg : Segment Q) (rect : Rect Q) :
  in_rect rect (p1 seg) ->
  in_rect rect (p2 seg) ->
  cohen_sutherland_clip (S fuel) seg rect = Returns (Some seg).
Proof.
  intros H1 H2. apply clip_inside; apply outcode_0_in_rect; assumption.
Qed.

(** X2. For a valid rectangle, a segment with both endpoints strictly beyond
    one side of the window (both above, both below, both right or both
    left) gives [None] on the first pass, without an interpolation. *)
Theorem segment_beyond_one_side
  (fuel : nat) (seg : Segment Q) (rect : Rect Q) (s : side) :
  valid_rect rect ->
  beyond s rect (p1 seg) ->
  beyond s rect (p2 seg) ->
  cohen_sutherland_clip (S fuel) seg rect = Returns None.
Proof.
  intros [Vx Vy] B1 B2. apply clip_common_bit.
  rewrite !outcode_zones. unfold hzone, vzone.
  pose proof (zone_of_spec (xmin rect) (xmax rect) (x (p1 seg))) as Z1.
  pose proof (zone_of_spec (ymin rect) (ymax rect) (y (p1 seg))) as Z2.
  pose proof (zone_of_spec (xmin rect) (xmax rect) (x (p2 seg))) as Z3.
  pose proof (zone_of_spec (ymin rect) (ymax rect) (y (p2 seg))) as Z4.
  destruct s; simpl in B1, B2;
    destruct (zone_of (xmin rect) (xmax rect) (x (p1 seg))),
      (zone_of (ymin rect) (ymax rect) (y (p1 seg))),
      (zone_of (xmin rect) (xmax rect) (x (p2 seg))),
      (zone_of (ymin rect) (ymax rect) (y (p2 seg)));
    try (exfalso; lra); simpl; discriminate.
Qed.







(** ** A window that is not valid

    The rectangle comes from the file as four numbers and is not checked.
    With [xmax < xmin] or [ymax < ymin] no coordinate is within the window
    on that axis, and every segment is rejected. *)















(** * Further properties of sutherland_hodgman_clip_polygon *)

Section MoreOfAnyPolygons.

Context {F : Type} {N : Num F}.

(** The two divisions of [intersection] stand behind its test of [det]. *)
Lemma intersection_returns (P1 P2 a b : Point F) :
  exists I : Point F, intersection P1 P2 a b = Returns I.
Proof.
  unfold intersection, div.
  destruct (eqb _ zero) eqn:E; [eexists; reflexivity|].
  cbn [bind]. eexists. reflexivity.
Qed.

Lemma getitem_nth_error (l : list (Point F)) (i : nat) (p : Point F) :
  nth_error l i = Some p -> getitem l i = Returns p.
Proof. intros H. unfold getitem. rewrite H. reflexivity. Qed.

Lemma nth_error_lt (l : list (Point F)) (i : nat) :
  (i < length l)%nat -> exists p, nth_error l i = Some p /\ In p l.
Proof.
  intros H. destruct (nth_error l i) as [p|] eqn:E.
  - exists p. split; [reflexivity|]. eapply nth_error_In. exact E.
  - apply nth_error_None in E. lia.
Qed.

(** One pair of the walk: what it appends is at most two points, each the
    end [Q] of the pair or an intersection of the pair with the clip line. *)
Lemma walk_body_returns (input_list : list (Point F)) (A B : Point F)
  (j : nat) (output : list (Point F)) :
  (j < length input_list)%nat ->
  exists added : list (Point F),
    walk_body input_list A B j output = Returns (output ++ added) /\
    (length added <= 2)%nat.
Proof.
  intros Hj. unfold walk_body.
  destruct (@nth_error_lt input_list j Hj) as (P & HP & _).
  rewrite (getitem_nth_error _ _ HP). cbn [bind].
  destruct (@pymod_lt (j + 1) (length input_list)) as (k & -> & Hk & _);
    [lia|]. cbn [bind].
  destruct (@nth_error_lt input_list k Hk) as (Q' & HQ & _).
  rewrite (getitem_nth_error _ _ HQ). cbn [bind].
  destruct (intersection_returns P Q' A B) as [I ->]. cbn [bind].
  destruct (inside Q' A B), (inside P A B); cbn [negb bind].
  - exists [Q']. split; [reflexivity | simpl; lia].
  - exists [I; Q']. rewrite <- app_assoc. split; [reflexivity | simpl; lia].
  - exists [I]. split; [reflexivity | simpl; lia].
  - exists []. rewrite app_nil_r. split; [reflexivity | simpl; lia].
Qed.

Lemma walk_returns (input_list : list (Point F)) (A B : Point F) :
  forall (n start : nat) (output : list (Point F)),
    (start + n <= length input_list)%nat ->
    exists res : list (Point F),
      for_range (walk_body input_list A B) start n output = Returns res /\
      (length res <= length output + 2 * n)%nat.
Proof.
  induction n as [|n IH]; intros start output H; cbn [for_range].
  - exists output. split; [reflexivity | lia].
  - destruct (@walk_body_returns input_list A B start output)
      as (added & -> & La); [lia|]. cbn [bind].
    destruct (IH (S start) (output ++ added)) as (res & -> & Lr); [lia|].
    exists res. split; [reflexivity|]. rewrite length_app in Lr. lia.
Qed.

Lemma edge_body_returns (clipper : list (Point F)) (i : nat)
  (output : list (Point F)) :
  (i < length clipper)%nat ->
  exists res : list (Point F),
    edge_body clipper i output = Returns res /\
    (length res <= 2 * length output)%nat.
Proof.
  intros Hi. unfold edge_body.
  destruct (@nth_error_lt clipper i Hi) as (A & HA & _).
  rewrite (getitem_nth_error _ _ HA). cbn [bind].
  destruct (@pymod_lt (i + 1) (length clipper)) as (k & -> & Hk & _);
    [lia|]. cbn [bind].
  destruct (@nth_error_lt clipper k Hk) as (B & HB & _).
  rewrite (getitem_nth_error _ _ HB). cbn [bind].
  destruct (@walk_returns output A B (length output) 0 [])
    as (res & -> & L); [lia|].
  exists res. split; [reflexivity | simpl in L; lia].
Qed.

Lemma edges_return (clipper : list (Point F)) :
  forall (n start : nat) (output : list (Point F)),
    (start + n <= length clipper)%nat ->
    exists res : list (Point F),
      for_range (edge_body clipper) start n output = Returns res /\
      (length res <= 2 ^ n * length output)%nat.
Proof.
  induction n as [|n IH]; intros start output H; cbn [for_range].
  - exists output. split; [reflexivity | simpl; lia].
  - destruct (@edge_body_returns clipper start output) as (o1 & -> & L1);
      [lia|]. cbn [bind].
    destruct (IH (S start) o1) as (res & -> & Lr); [lia|].
    exists res. split; [reflexivity|].
    rewrite Nat.pow_succ_r'. nia.
Qed.

(** X8. [sutherland_hodgman_clip_polygon] returns a polygon for every
    subject and every clipper, at every instance of the numbers: no index
    is out of range, no modulus is by zero and no division is by zero. *)
Theorem clip_polygon_returns (poly clipper : list (Point F)) :
  exists out : list (Point F),
    sutherland_hodgman_clip_polygon poly clipper = Returns out.
Proof.
  unfold sutherland_hodgman_clip_polygon.
  destruct (@edges_return clipper (length clipper) 0 poly) as (res & H & _);
    [lia|].
  exists res. exact H.
Qed.

(** X9. The result has at most [2 ^ len(clipper) * len(poly)] vertices: a
    pass over one clip edge emits at most two vertices for each vertex of
    its input. *)
Theorem clip_polygon_size (poly clipper out : list (Point F)) :
  sutherland_hodgman_clip_polygon poly clipper = Returns out ->
  (length out <= 2 ^ length clipper * length poly)%nat.
Proof.
  unfold sutherland_hodgman_clip_polygon. intros H.
  destruct (@edges_return clipper (length clipper) 0 poly) as (res & H' & L);
    [lia|].
  rewrite H in H'. injection H' as <-. exact L.
Qed.

Lemma In_rotate_one (A : Type) (l : list A) (v : A) :
  In v (rotate_one l) <-> In v l.
Proof.
  destruct l as [|p rest]; simpl; [reflexivity|].
  rewrite in_app_iff. simpl. tauto.
Qed.

Lemma nth_error_rotate_one (l : list (Point F)) (j : nat) :
  (j < length l)%nat ->
  nth_error l ((j + 1) mod length l) = nth_error (rotate_one l) j.
Proof.
  destruct l as [|p rest]; simpl length; [lia|]. intros Hj.
  unfold rotate_one.
  destruct (Nat.eq_dec j (length rest)) as [->|Hne].
  - replace (length rest + 1)%nat with (S (length rest)) by lia.
    rewrite Nat.Div0.mod_same. rewrite nth_error_app2 by lia.
    rewrite Nat.sub_diag. reflexivity.
  - rewrite Nat.mod_small by lia.
    replace (j + 1)%nat with (S j) by lia. simpl.
    rewrite nth_error_app1 by lia. reflexivity.
Qed.

(** A walk in which both ends of every pair are inside emits the end of
    each pair. *)
Lemma walk_all_inside_any (input_list : list (Point F)) (A B : Point F) :
  (forall q, In q input_list -> inside q A B = true) ->
  forall (n start : nat) (output : list (Point F)),
    (start + n <= length input_list)%nat ->
    for_range (walk_body input_list A B) start n output =
    Returns (output ++ firstn n (skipn start (rotate_one input_list))).
Proof.
  intros Hin. induction n as [|n IH]; intros start output H.
  - simpl. rewrite app_nil_r. reflexivity.
  - cbn [for_range]. unfold walk_body at 1.
    destruct (@nth_error_lt input_list start) as (P & HP & InP); [lia|].
    rewrite (getitem_nth_error _ _ HP). cbn [bind].
    destruct (@pymod_lt (start + 1) (length input_list))
      as (k & -> & Hk & ->); [lia|]. cbn [bind].
    destruct (@nth_error_lt input_list _ Hk) as (Q' & HQ & InQ).
    rewrite (getitem_nth_error _ _ HQ). cbn [bind].
    rewrite (Hin _ InP), (Hin _ InQ). cbn [negb bind].
    rewrite IH by lia. rewrite <- app_assoc. f_equal. f_equal.
    rewrite nth_error_rotate_one in HQ by lia.
    assert (L : length (rotate_one input_list) = length input_list).
    { destruct input_list; simpl; [reflexivity|].
      rewrite length_app. simpl. lia. }
    clear - HQ. revert start HQ.
    induction (rotate_one input_list) as [|r l IHl]; intros start HQ.
    + destruct start; discriminate.
    + destruct start as [|start].
      * simpl in HQ. injection HQ as ->. reflexivity.
      * simpl in HQ |- *. apply IHl. exact HQ.
Qed.

Lemma edge_body_all_inside (clipper : list (Point F)) (i : nat)
  (output : list (Point F)) (A B : Point F) :
  nth_error clipper i = Some A ->
  nth_error clipper ((i + 1) mod length clipper) = Some B ->
  (forall q, In q output -> inside q A B = true) ->
  edge_body clipper i output = Returns (rotate_one output).
Proof.
  intros HA HB Hin. unfold edge_body.
  rewrite (getitem_nth_error _ _ HA). cbn [bind].
  assert (Hi : (i < length clipper)%nat)
    by (apply nth_error_Some; congruence).
  destruct (@pymod_lt (i + 1) (length clipper)) as (k & -> & Hk & ->);
    [lia|]. cbn [bind].
  rewrite (getitem_nth_error _ _ HB). cbn [bind].
  rewrite (@walk_all_inside_any output A B Hin) by lia.
  cbn [app skipn]. f_equal. apply firstn_all2.
  destruct output; simpl; [lia|]. rewrite length_app. simpl. lia.
Qed.

Lemma edges_all_inside (poly clipper : list (Point F)) :
  (forall (i : nat) (A B : Point F),
     nth_error clipper i = Some A ->
     nth_error clipper ((i + 1) mod length clipper) = Some B ->
     forall q, In q poly -> inside q A B = true) ->
  forall (n start : nat) (output : list (Point F)),
    (start + n <= length clipper)%nat ->
    (forall q, In q output -> In q poly) ->
    for_range (edge_body clipper) start n output =
    Returns (Nat.iter n rotate_one output).
Proof.
  intros Hin. induction n as [|n IH]; intros start output H Hsub.
  - reflexivity.
  - cbn [for_range].
    destruct (@nth_error_lt clipper start) as (A & HA & _); [lia|].
    destruct (@nth_error_lt clipper ((start + 1) mod length clipper))
      as (B & HB & _); [apply Nat.mod_upper_bound; lia|].
    rewrite (@edge_body_all_inside clipper start output A B HA HB)
      by (intros q Hq; apply (Hin start A B HA HB); auto).
    cbn [bind]. rewrite IH.
    + rewrite Nat.iter_succ_r. reflexivity.
    + lia.
    + intros q Hq. apply Hsub. apply In_rotate_one. exact Hq.
Qed.

(** X12. A subject whose vertices all pass the inside test of every clip
    edge comes back with the same vertices in the same cyclic order, started
    one vertex later for each clip edge.  At every instance of the
    numbers. *)
Theorem clip_polygon_all_inside (poly clipper : list (Point F)) :
  (forall (i : nat) (A B : Point F),
     nth_error clipper i = Some A ->
     nth_error clipper ((i + 1) mod length clipper) = Some B ->
     forall q, In q poly -> inside q A B = true) ->
  sutherland_hodgman_clip_polygon poly clipper =
  Returns (Nat.iter (length clipper) rotate_one poly).
Proof.
  intros Hin. unfold sutherland_hodgman_clip_polygon.
  apply (@edges_all_inside poly clipper Hin); [lia | auto].
Qed.

End MoreOfAnyPolygons.

(** ** The polygon clipper in exact arithmetic *)

















(** * The readers *)

Section ReadersProperties.

Context {F : Type}.
Variable int_of : token -> option Z.
Variable float_of : token -> option F.

Lemma two_floats_got (it rest : list token) (a b : F) :
  two_floats float_of it = Got ((a, b), rest) <->
  exists ta tb : token,
    it = ta :: tb :: rest /\ float_of ta = Some a /\ float_of tb = Some b.
Proof.
  unfold two_floats, py_float. split.
  - destruct it as [|ta [|tb it']]; simpl; try discriminate.
    destruct (float_of ta) as [va|] eqn:Ea; simpl; try discriminate.
    destruct (float_of tb) as [vb|] eqn:Eb; simpl; try discriminate.
    intros H. injection H as <- <- <-. exists ta, tb. auto.
  - intros (ta & tb & -> & Ha & Hb). simpl. rewrite Ha. simpl.
    rewrite Hb. reflexivity.
Qed.

Lemma four_floats_got (it rest : list token) (a b c d : F) :
  four_floats float_of it = Got (((a, b), (c, d)), rest) <->
  exists w : (token * token) * (token * token),
    it = four_tokens w ++ rest /\
    (float_of (fst (fst w)) = Some a /\ float_of (snd (fst w)) = Some b) /\
    (float_of (fst (snd w)) = Some c /\ float_of (snd (snd w)) = Some d).
Proof.
  unfold four_floats, py_float. split.
  - destruct it as [|ta [|tb [|tc [|td it']]]]; simpl; try discriminate.
    destruct (float_of ta) as [va|] eqn:Ea; simpl; try discriminate.
    destruct (float_of tb) as [vb|] eqn:Eb; simpl; try discriminate.
    destruct (float_of tc) as [vc|] eqn:Ec; simpl; try discriminate.
    destruct (float_of td) as [vd|] eqn:Ed; simpl; try discriminate.
    intros H. injection H as <- <- <- <- <-.
    exists ((ta, tb), (tc, td)). simpl. auto.
  - intros ([[ta tb] [tc td]] & -> & [Ha Hb] & [Hc Hd]). simpl in *.
    rewrite Ha. simpl. rewrite Hb. simpl. rewrite Hc. simpl. rewrite Hd.
    reflexivity.
Qed.

Lemma read_points_got (n : nat) :
  forall (acc res : list (Point F)) (it rest : list token),
    read_points float_of n acc it = Got (res, rest) <->
    exists (cs : list (token * token)) (ps : list (Point F)),
      length cs = n /\ it = point_tokens cs ++ rest /\
      Forall2 (spells_point float_of) cs ps /\ res = acc ++ ps.
Proof.
  induction n as [|n IH]; intros acc res it rest; simpl.
  - split.
    + intros H. injection H as <- <-. exists [], []. simpl.
      rewrite app_nil_r. auto.
    + intros (cs & ps & L & -> & HF & ->).
      destruct cs; [|discriminate]. inversion HF. simpl.
      rewrite app_nil_r. reflexivity.
  - split.
    + destruct (two_floats float_of it) as [[[a b] it']|] eqn:E;
        simpl; [|discriminate].
      intros H. apply IH in H as (cs & ps & L & -> & HF & ->).
      apply two_floats_got in E as (ta & tb & -> & Ha & Hb).
      exists ((ta, tb) :: cs), ({| x := a; y := b |} :: ps).
      simpl. rewrite <- app_assoc. repeat split; auto.
      constructor; [split; assumption | exact HF].
    + intros (cs & ps & L & -> & HF & ->).
      destruct HF as [|[ta tb] p cs ps [Ha Hb] HF]; [discriminate|].
      simpl in *.
      assert (E : two_floats float_of (ta :: tb :: point_tokens cs ++ rest)
                  = Got ((x p, y p), point_tokens cs ++ rest))
        by (apply two_floats_got; exists ta, tb; auto).
      rewrite E. simpl. apply IH. exists cs, ps.
      destruct p. simpl. rewrite <- app_assoc. repeat split; auto.
Qed.

(** X14. [read_polygon] returns the points [ps] exactly when the tokens are
    a count [t], then two tokens for each point, then anything: [int(t)] is
    a number [n], there are [max(n, 0)] points, and [float] of the two
    tokens of a point gives its [x] and its [y].  What follows the last
    point is not read. *)
Theorem read_polygon_spec (parts : list token) (ps : list (Point F)) :
  read_polygon int_of float_of parts = Got ps <->
  exists (t : token) (n : Z) (cs : list (token * token))
         (extra : list token),
    parts = t :: point_tokens cs ++ extra /\
    int_of t = Some n /\ Z.to_nat n = length cs /\
    Forall2 (spells_point float_of) cs ps.
Proof.
  unfold read_polygon, py_int. split.
  - destruct parts as [|t it]; simpl; [discriminate|].
    destruct (int_of t) as [n|] eqn:En; simpl; [|discriminate].
    destruct (read_points float_of (Z.to_nat n) [] it)
      as [[res rest]|] eqn:E; simpl; [|discriminate].
    intros H. injection H as <-.
    apply read_points_got in E as (cs & ps' & L & -> & HF & ->).
    exists t, n, cs, rest. auto.
  - intros (t & n & cs & extra & -> & En & L & HF). simpl.
    rewrite En. simpl.
    assert (E : read_points float_of (Z.to_nat n) []
                  (point_tokens cs ++ extra) = Got (ps, extra)).
    { apply read_points_got. exists cs, ps. auto. }
    rewrite E. reflexivity.
Qed.

Lemma read_segments_got (n : nat) :
  forall (acc res : list (Segment F)) (it rest : list token),
    read_segments float_of n acc it = Got (res, rest) <->
    exists (cs : list ((token * token) * (token * token)))
           (ss : list (Segment F)),
      length cs = n /\ it = segment_tokens cs ++ rest /\
      Forall2 (spells_segment float_of) cs ss /\ res = acc ++ ss.
Proof.
  induction n as [|n IH]; intros acc res it rest; simpl.
  - split.
    + intros H. injection H as <- <-. exists [], []. simpl.
      rewrite app_nil_r. auto.
    + intros (cs & ss & L & -> & HF & ->).
      destruct cs; [|discriminate]. inversion HF. simpl.
      rewrite app_nil_r. reflexivity.
  - split.
    + destruct (four_floats float_of it) as [[[[a b] [c d]] it']|] eqn:E;
        simpl; [|discriminate].
      intros H. apply IH in H as (cs & ss & L & -> & HF & ->).
      apply four_floats_got in E as (w & -> & Hab & Hcd).
      exists (w :: cs),
        ({| p1 := {| x := a; y := b |}; p2 := {| x := c; y := d |} |} :: ss).
      unfold segment_tokens. simpl. rewrite <- !app_assoc.
      repeat split; auto.
      constructor; [split; assumption | exact HF].
    + intros (cs & ss & L & -> & HF & ->).
      destruct HF as [|w s cs ss [Hab Hcd] HF]; [discriminate|].
      simpl in L. injection L as L.
      assert (E : four_floats float_of
                    (segment_tokens (w :: cs) ++ rest)
                  = Got (((x (p1 s), y (p1 s)), (x (p2 s), y (p2 s))),
                         segment_tokens cs ++ rest)).
      { apply four_floats_got. exists w. unfold segment_tokens. simpl.
        split; [reflexivity|]. split; assumption. }
      rewrite E. simpl. apply IH. exists cs, ss.
      destruct s as [[a b] [c d]]. simpl. rewrite <- app_assoc.
      repeat split; auto.
Qed.

(** X15. [read_segments_rect] returns the segments [segs] and the
    rectangle [rect] exactly when the tokens are a count [t], then four
    tokens for each of the [max(int(t), 0)] segments (x1 y1 x2 y2), then the
    four tokens of the rectangle (xmin ymin xmax ymax), then anything.  The
    rectangle is taken as it is spelt: nothing asks for
    [xmin <= xmax]. *)
Theorem read_segments_rect_spec
  (parts : list token) (segs : list (Segment F)) (rect : Rect F) :
  read_segments_rect int_of float_of parts = Got (segs, rect) <->
  exists (t : token) (n : Z)
         (cs : list ((token * token) * (token * token)))
         (w : (token * token) * (token * token)) (extra : list token),
    parts = t :: segment_tokens cs ++ four_tokens w ++ extra /\
    int_of t = Some n /\ Z.to_nat n = length cs /\
    Forall2 (spells_segment float_of) cs segs /\
    spells_rect float_of w rect.
Proof.
  unfold read_segments_rect, py_int. split.
  - destruct parts as [|t it]; simpl; [discriminate|].
    destruct (int_of t) as [n|] eqn:En; simpl; [|discriminate].
    destruct (read_segments float_of (Z.to_nat n) [] it)
      as [[res rest]|] eqn:E; simpl; [|discriminate].
    destruct (four_floats float_of rest) as [[[[a b] [c d]] it']|] eqn:E4;
      simpl; [|discriminate].
    intros H. injection H as <- <-.
    apply read_segments_got in E as (cs & ss & L & -> & HF & ->).
    apply four_floats_got in E4 as (w & -> & Hab & Hcd).
    exists t, n, cs, w, it'. destruct Hab, Hcd.
    simpl. repeat split; auto.
  - intros (t & n & cs & w & extra & -> & En & L & HF & Hw).
    cbn [next rbind fst snd]. rewrite En. cbn [rbind].
    assert (E : read_segments float_of (Z.to_nat n) []
                  (segment_tokens cs ++ four_tokens w ++ extra)
                = Got (segs, four_tokens w ++ extra)).
    { apply read_segments_got. exists cs, segs. auto. }
    rewrite E. cbn [rbind fst snd].
    destruct rect as [a b c d]. destruct Hw as [Hab Hcd]. simpl in Hab, Hcd.
    assert (E4 : four_floats float_of (four_tokens w ++ extra)
                 = Got (((a, b), (c, d)), extra))
      by (apply four_floats_got; exists w; auto).
    rewrite E4. reflexivity.
Qed.

End ReadersProperties.

Section ReadersRunOut.

Context {F : Type}.
Variable int_of : token -> option Z.
Variable float_of : token -> option F.

Lemma four_floats_numbers (it : list token) :
  (forall tok, In tok it -> float_of tok <> None) ->
  ((length it < 4)%nat -> four_floats float_of it = Failed StopIteration) /\
  ((4 <= length it)%nat ->
   exists v, four_floats float_of it = Got (v, skipn 4 it)).
Proof.
  intros Hall. unfold four_floats, py_float. split.
  - destruct it as [|ta [|tb [|tc [|td it']]]]; simpl; intros L;
      try reflexivity; lia.
  - destruct it as [|ta [|tb [|tc [|td it']]]]; simpl; intros L; try lia.
    destruct (float_of ta) eqn:Ea;
      [|exfalso; apply (Hall ta); simpl; auto].
    destruct (float_of tb) eqn:Eb;
      [|exfalso; apply (Hall tb); simpl; auto].
    destruct (float_of tc) eqn:Ec;
      [|exfalso; apply (Hall tc); simpl; auto].
    destruct (float_of td) eqn:Ed;
      [|exfalso; apply (Hall td); simpl; auto].
    simpl. eexists. reflexivity.
Qed.

Lemma read_segments_numbers (n : nat) :
  forall (acc : list (Segment F)) (it : list token),
    (forall tok, In tok it -> float_of tok <> None) ->
    (length it < 4 * n + 4)%nat ->
    read_segments float_of n acc it = Failed StopIteration \/
    exists res rest,
      read_segments float_of n acc it = Got (res, rest) /\
      (length rest < 4)%nat /\
      (forall tok, In tok rest -> float_of tok <> None).
Proof.
  induction n as [|n IH]; intros acc it Hall L; simpl.
  - right. exists acc, it. split; [reflexivity|]. split; [lia | exact Hall].
  - destruct (four_floats_numbers it Hall) as [Short Long].
    destruct (Nat.lt_ge_cases (length it) 4) as [L4|L4].
    + left. rewrite (Short L4). reflexivity.
    + destruct (Long L4) as (v & ->). cbn [rbind snd].
      apply IH.
      * intros tok Hin. apply Hall.
        rewrite <- (firstn_skipn 4 it). apply in_or_app. right. exact Hin.
      * rewrite length_skipn. lia.
Qed.

(** X16. Tokens that run out: when [int] accepts the count and [float]
    accepts every token after it, but fewer than [4 * max(n, 0) + 4] tokens
    follow the count, [read_segments_rect] raises [StopIteration]; so does
    an empty list of tokens.  A file that leaves out the rectangle is
    refused this way. *)
Theorem read_segments_rect_runs_out (t : token) (n : Z) (toks : list token) :
  int_of t = Some n ->
  (forall tok, In tok toks -> float_of tok <> None) ->
  (length toks < 4 * Z.to_nat n + 4)%nat ->
  read_segments_rect (F := F) int_of float_of [] = Failed StopIteration /\
  read_segments_rect int_of float_of (t :: toks) = Failed StopIteration.
Proof.
  intros En Hall L. split; [reflexivity|].
  unfold read_segments_rect, py_int. cbn [next rbind fst snd].
  rewrite En. cbn [rbind].
  destruct (@read_segments_numbers (Z.to_nat n) [] toks Hall L)
    as [->|(res & rest & -> & Lr & Hr)]; [reflexivity|].
  cbn [rbind fst snd].
  destruct (four_floats_numbers rest Hr) as [Short _].
  rewrite (Short Lr). reflexivity.
Qed.

End ReadersRunOut.

(** * The handler run_segments_clip *)




(** * Witnesses of the further properties *)

Lemma segment_inside_unchanged_witness :
  in_rect window (p1 inner_segment) /\
  in_rect window (p2 inner_segment) /\
  cohen_sutherland_clip 1 inner_segment window = Returns (Some inner_segment).
Proof.
  assert (H1 : in_rect window (p1 inner_segment))
    by (unfold in_rect; simpl; lra).
  assert (H2 : in_rect window (p2 inner_segment))
    by (unfold in_rect; simpl; lra).
  split; [exact H1|]. split; [exact H2|].
  apply (@segment_inside_unchanged 0 inner_segment window H1 H2).
Defined.

Lemma segment_beyond_one_side_witness :
  valid_rect window /\
  beyond STop window (p1 upper_segment) /\
  beyond STop window (p2 upper_segment) /\
  cohen_sutherland_clip 1 upper_segment window = Returns None.
Proof.
  assert (V : valid_rect window) by (split; simpl; lra).
  assert (B1 : beyond STop window (p1 upper_segment)) by (simpl; lra).
  assert (B2 : beyond STop window (p2 upper_segment)) by (simpl; lra).
  split; [exact V|]. split; [exact B1|]. split; [exact B2|].
  apply (@segment_beyond_one_side 0 upper_segment window STop V B1 B2).
Defined.

Lemma inside_endpoint_kept_witness :
  cohen_sutherland_clip 5 crossing window = Returns (Some crossing_clipped) /\
  (outcode window (p1 crossing) = 0%Z -> p1 crossing_clipped = p1 crossing) /\
  (outcode window (p2 crossing) = 0%Z -> p2 crossing_clipped = p2 crossing).
Proof.
  assert (H : cohen_sutherland_clip 5 crossing window
              = Returns (Some crossing_clipped)) by (vm_compute; reflexivity).
  split; [exact H|].
  apply (@inside_endpoint_kept Q Q_Num 5 crossing crossing_clipped window H).
Defined.

Lemma returned_endpoints_on_window_witness :
  cohen_sutherland_clip 5 crossing window = Returns (Some crossing_clipped) /\
  (p1 crossing_clipped = p1 crossing \/
   on_window_line window (p1 crossing_clipped)) /\
  (p2 crossing_clipped = p2 crossing \/
   on_window_line window (p2 crossing_clipped)).
Proof.
  assert (H : cohen_sutherland_clip 5 crossing window
              = Returns (Some crossing_clipped)) by (vm_compute; reflexivity).
  split; [exact H|].
  apply (@returned_endpoints_on_window Q Q_Num 5 crossing crossing_clipped
           window H).
Defined.



Lemma clip_polygon_size_witness :
  sutherland_hodgman_clip_polygon square triangle = Returns square_clipped /\
  (length square_clipped <= 2 ^ length triangle * length square)%nat.
Proof.
  assert (H : sutherland_hodgman_clip_polygon square triangle
              = Returns square_clipped) by (vm_compute; reflexivity).
  split; [exact H|].
  apply (@clip_polygon_size Q Q_Num square triangle square_clipped H).
Defined.





Lemma small_triangle_inside :
  forall (i : nat) (A B : Point Q),
    nth_error triangle i = Some A ->
    nth_error triangle ((i + 1) mod length triangle) = Some B ->
    forall q, In q small_triangle -> inside q A B = true.
Proof.
  intros i A B HA HB q Hq.
  destruct i as [|[|[|i]]]; simpl in HA, HB;
    try (destruct i; discriminate);
    injection HA as <-; injection HB as <-;
    destruct Hq as [<-|[<-|[<-|[]]]]; vm_compute; reflexivity.
Qed.

Lemma clip_polygon_all_inside_witness :
  (forall (i : nat) (A B : Point Q),
     nth_error triangle i = Some A ->
     nth_error triangle ((i + 1) mod length triangle) = Some B ->
     forall q, In q small_triangle -> inside q A B = true) /\
  sutherland_hodgman_clip_polygon small_triangle triangle =
  Returns (Nat.iter (length triangle) rotate_one small_triangle).
Proof.
  split; [exact small_triangle_inside|].
  apply (@clip_polygon_all_inside Q Q_Num small_triangle triangle
           small_triangle_inside).
Defined.



(** The readers on a file of unsigned numerals. *)
Example read_polygon_triangle :
  read_polygon unsigned unsigned_Q
    ["3"; "0"; "0"; "4"; "0"; "0"; "4"]%string
  = Got [pt (inject_Z 0) (inject_Z 0); pt (inject_Z 4) (inject_Z 0);
         pt (inject_Z 0) (inject_Z 4)].
Proof. vm_compute. reflexivity. Qed.

Lemma unsigned_Q_numbers :
  forall tok, In tok ["0"; "0"; "1"; "1"]%string -> unsigned_Q tok <> None.
Proof.
  intros tok [<-|[<-|[<-|[<-|[]]]]]; vm_compute; discriminate.
Qed.

Lemma read_segments_rect_runs_out_witness :
  unsigned "1"%string = Some 1%Z /\
  (forall tok, In tok ["0"; "0"; "1"; "1"]%string ->
               unsigned_Q tok <> None) /\
  (length ["0"; "0"; "1"; "1"]%string < 4 * Z.to_nat 1 + 4)%nat /\
  read_segments_rect (F := Q) unsigned unsigned_Q [] = Failed StopIteration /\
  read_segments_rect unsigned unsigned_Q
    ("1" :: ["0"; "0"; "1"; "1"])%string = Failed StopIteration.
Proof.
  assert (En : unsigned "1"%string = Some 1%Z) by reflexivity.
  assert (L : (length ["0"; "0"; "1"; "1"]%string
               < 4 * Z.to_nat 1 + 4)%nat) by (simpl; lia).
  split; [exact En|]. split; [exact unsigned_Q_numbers|]. split; [exact L|].
  apply (@read_segments_rect_runs_out Q unsigned unsigned_Q "1"%string 1%Z
           ["0"; "0"; "1"; "1"]%string En unsigned_Q_numbers L).
Defined.


(** * The inside test and the direction of the clip edge *)

